(** * huskygpt: prompt orchestration and chat-session management

    A shallow embedding of [ChatgptProxyAPI] (sendMessage, sendFileResult,
    sendPrompts, run), of [HuskyGPTPrompt.generatePrompt] and of
    [UserOptionsClass.securityPrompt], with the theorems that settle the
    properties stated about them.

    JavaScript strings are lists of characters, objects are finite maps from
    property names to values, promises are computations over an explicit
    world whose outcome is a value or a thrown error.

    The first part holds the definitions, the second the proofs. *)


From Stdlib Require Import ZArith Ascii String DecimalString List Lia Bool Arith.
From Stdlib Require QArith_base.
From stdpp Require Import gmap strings list fin_maps.

Local Open Scope nat_scope.
Local Open Scope list_scope.

(** * Part I: definitions *)

(** ** JavaScript strings *)

Definition txt (s : string) : list ascii := list_ascii_of_string s.

Definition backtick : ascii := ascii_of_nat 96.

Definition newline : ascii := ascii_of_nat 10.

(** [\w] without the unicode flag: [A-Za-z0-9_]. *)
Definition isWordChar (c : ascii) : bool :=
  let n := nat_of_ascii c in
  ((65 <=? n) && (n <=? 90)) || ((97 <=? n) && (n <=? 122))
  || ((48 <=? n) && (n <=? 57)) || (n =? 95).

(** Canonicalize of a case-insensitive regular expression (flag [i], no
    unicode flag): a character is compared through its upper-case form. *)
Definition canonicalize (c : ascii) : ascii :=
  let n := nat_of_ascii c in
  if (97 <=? n) && (n <=? 122) then ascii_of_nat (n - 32) else c.

(** ** Regular expressions

    A compiled regular expression is known by its matcher: [m S i] is the
    length of the match that starts at index [i] of [S], if there is one. *)

Definition Matcher := list ascii -> nat -> option nat.

(** RegExpBuiltinExec of a regular expression that is not sticky: the
    matcher is tried at [lastIndex], [lastIndex + 1], ..., [length S]; the
    result is the index of the match and its length. [fuel] counts the
    indices left to try. *)
Fixpoint regExpExecFrom (m : Matcher) (S : list ascii) (fuel lastIndex : nat)
  : option (nat * nat) :=
  match fuel with
  | O => None
  | Datatypes.S fuel' =>
      match m S lastIndex with
      | Some len => Some (lastIndex, Nat.min len (length S - lastIndex))
      | None => regExpExecFrom m S fuel' (lastIndex + 1)
      end
  end.

Definition regExpExec (m : Matcher) (S : list ascii) (lastIndex : nat)
  : option (nat * nat) :=
  regExpExecFrom m S (length S + 1 - lastIndex) lastIndex.

(** The loop shared by [String.prototype.match] and
    [String.prototype.replace] for a regular expression with the flag [g]:
    exec is called until it fails; after an empty match lastIndex is
    advanced by one. *)
Fixpoint globalResults (m : Matcher) (S : list ascii) (fuel lastIndex : nat)
  : list (nat * nat) :=
  match fuel with
  | O => []
  | Datatypes.S fuel' =>
      match regExpExec m S lastIndex with
      | None => []
      | Some (p, len) =>
          (p, len) ::
          globalResults m S fuel' (if len =? 0 then p + 1 else p + len)
      end
  end.

Definition resultsFrom (m : Matcher) (S : list ascii) (lastIndex : nat)
  : list (nat * nat) :=
  globalResults m S (length S + 1 - lastIndex) lastIndex.

Definition substring (S : list ascii) (from len : nat) : list ascii :=
  take len (drop from S).

(** [S.match(rx)] for a global [rx]: the matched substrings, or null. *)
Definition jsMatch (m : Matcher) (S : list ascii) : option (list (list ascii)) :=
  match resultsFrom m S 0 with
  | [] => None
  | rs => Some (map (fun r => substring S (fst r) (snd r)) rs)
  end.

(** The assembly step of [S.replace(rx, replacement)] for a replacement
    without [$]: the text between the matches is copied, each match gives
    way to the replacement. *)
Fixpoint splice (S : list ascii) (results : list (nat * nat))
    (replacement : list ascii) (nextSourcePosition : nat) : list ascii :=
  match results with
  | [] => drop nextSourcePosition S
  | (position, matchLength) :: results' =>
      if nextSourcePosition <=? position
      then substring S nextSourcePosition (position - nextSourcePosition)
             ++ replacement
             ++ splice S results' replacement (position + matchLength)
      else splice S results' replacement nextSourcePosition
  end.

Definition jsReplace (m : Matcher) (S replacement : list ascii) : list ascii :=
  splice S (resultsFrom m S 0) replacement 0.

(** [rx.test(S)] for a regular expression whose lastIndex is 0. *)
Definition jsTest (m : Matcher) (S : list ascii) : bool :=
  match regExpExec m S 0 with Some _ => true | None => false end.

(** *** The regular expressions of the program *)

(** [(\w?)*]: every round of the star takes one word character; the round
    that matches the empty string ends the loop. *)
Fixpoint starOptWord (s : list ascii) : nat :=
  match s with
  | c :: s' => if isWordChar c then Datatypes.S (starOptWord s') else 0
  | [] => 0
  end.

(** constant.ts: [codeBlocksMdSymbolRegex = /```(\w?)*/g]. *)
Definition codeBlocksMdSymbolRegex : Matcher := fun S i =>
  match drop i S with
  | c1 :: c2 :: c3 :: rest =>
      if Ascii.eqb c1 backtick && Ascii.eqb c2 backtick && Ascii.eqb c3 backtick
      then Some (3 + starOptWord rest)
      else None
  | _ => None
  end.

(** A pattern without metacharacters, under the flag [i]. *)
Fixpoint prefixCI (pattern s : list ascii) : bool :=
  match pattern, s with
  | [], _ => true
  | p :: pattern', c :: s' =>
      Ascii.eqb (canonicalize p) (canonicalize c) && prefixCI pattern' s'
  | _ :: _, [] => false
  end.

Definition literalCI (pattern : list ascii) : Matcher := fun S i =>
  if (i <=? length S) && prefixCI pattern (drop i S)
  then Some (length pattern) else None.

(** sendMessage, lines 122-125: the test made on the text of a reply. *)
Definition needsContinuation (text : list ascii) : bool :=
  length (default [] (jsMatch codeBlocksMdSymbolRegex text)) mod 2 =? 1.

(** The number of fence markers of a text: the occurrences of three
    backticks, counted from the left without overlap. *)
Fixpoint countFences (s : list ascii) : nat :=
  match s with
  | c1 :: ((c2 :: c3 :: rest) as s') =>
      if Ascii.eqb c1 backtick && Ascii.eqb c2 backtick && Ascii.eqb c3 backtick
      then Datatypes.S (countFences rest)
      else countFences s'
  | _ :: s' => countFences s'
  | [] => 0
  end.

(** ** What a global replace does to a text *)

(** A text cut in pieces: each piece is a stretch that is kept and, after it,
    a stretch that matched. *)
Definition sourceOf (pieces : list (list ascii * list ascii)) (tail : list ascii)
  : list ascii :=
  concat (map (fun piece => fst piece ++ snd piece) pieces) ++ tail.

Definition redactedOf (replacement : list ascii)
    (pieces : list (list ascii * list ascii)) (tail : list ascii) : list ascii :=
  concat (map (fun piece => fst piece ++ replacement) pieces) ++ tail.

Section ScanRelation.
Variable m : Matcher.
Variable S : list ascii.

(** [Scanned i next pieces tail]: the search goes on at index [i], the text
    is kept from index [next]. Each piece ends with the first match found
    from where the search stands; the search resumes behind the match, one
    index further when the match is empty; [tail] is what is left when
    nothing matches any more. *)
Inductive Scanned : nat -> nat -> list (list ascii * list ascii) -> list ascii -> Prop :=
| Scanned_end i next :
    (forall j, i <= j <= length S -> m S j = None) ->
    Scanned i next [] (drop next S)
| Scanned_match i next p len pieces tail :
    i <= p <= length S ->
    (forall j, i <= j < p -> m S j = None) ->
    m S p = Some len ->
    Scanned
      (if length (substring S p len) =? 0 then p + 1
       else p + length (substring S p len))
      (p + length (substring S p len)) pieces tail ->
    Scanned i next
      ((substring S next (p - next), substring S p len) :: pieces) tail.

End ScanRelation.

(** ** JavaScript values and objects *)

Inductive jsval : Type :=
| JUndefined
| JString (s : list ascii)
| JNumber (n : Z)
| JAbortSignal (controller : nat)
| JFunction (source : list ascii).

(** An object is the finite map of its own properties; [o.k] of a missing
    property is undefined. *)
Definition get (o : gmap string jsval) (k : string) : jsval :=
  default JUndefined (o !! k).

(** [{...a, ...b}]: the properties of [b] win over those of [a]. *)
Definition spread (a b : gmap string jsval) : gmap string jsval := b ∪ a.

(** ToString, as a template literal applies it. *)
Definition toString (v : jsval) : list ascii :=
  match v with
  | JUndefined => txt "undefined"
  | JString s => s
  | JNumber n => txt (DecimalString.NilZero.string_of_int (Z.to_int n))
  | JAbortSignal _ => txt "[object AbortSignal]"
  | JFunction source => source
  end.

(** ** Errors and outcomes *)

(** types.ts is not among the sources; the three members below are the ones
    the prompt builder registers, [OtherType name] is any other value of the
    huskyGPTType option: a text that is not empty and not the value of one
    of the three members. An option that is missing or empty is [None] in
    [IUserOptions]. *)
Inductive HuskyGPTTypeEnum : Type :=
| Review
| Test
| Commit
| OtherType (name : list ascii).

(** What [api.sendMessage] rejects with. *)
Inductive ApiError : Type :=
| TimeoutError
| AbortError
| ChatGPTError (message : list ascii).

Inductive Error : Type :=
| HuskyGPTTypeNotSet                        (* 'huskyGPTType is not set' *)
| FilePathRequired                          (* 'File path is required for generatePrompt' *)
| InvalidHuskyGPTType (t : HuskyGPTTypeEnum) (* 'Invalid huskyGPTType: ' + t *)
| ReadFileError (path : option (list ascii)) (* thrown by fs.readFileSync *)
| ReferenceError (name : string)
| SyntaxError (pattern : list ascii)        (* thrown by new RegExp *)
| TypeError
| CollaboratorError (message : list ascii)  (* thrown by readPromptFile or CodePicker *)
| SendMessageError (e : ApiError).

Inductive Outcome (A : Type) : Type :=
| Resolved (a : A)
| Rejected (e : Error).

Arguments Resolved {A} a.

Arguments Rejected {A} e.

(** ** Configuration and collaborators *)

Record IUserOptions : Type := {
  huskyGPTType : option HuskyGPTTypeEnum;
  securityRegex : option (list ascii);
  openAIPrompt : option (list ascii)
}.

Record IReadFileResult : Type := {
  filePath : option (list ascii);
  fileContent : option (list ascii)
}.

(** What a call of [huskyGPTTypeMap[type](fileResult)] can return. The
    three entries of the map return an array of prompts; the map is an
    object literal, so that the lookup also finds the members it inherits
    from Object.prototype, which return a text, a boolean, undefined, the
    map itself or the file result. *)
Inductive PromptValue : Type :=
| PromptArray (prompts : list (list ascii))
| PromptString (s : list ascii)
| PromptBoolean (b : bool)
| PromptUndefined
| PromptMapObject
| PromptFileResult (fileResult : IReadFileResult).

(** [a === b] on strings. *)
Fixpoint sameText (a b : list ascii) : bool :=
  match a, b with
  | [], [] => true
  | x :: a', y :: b' => Ascii.eqb x y && sameText a' b'
  | _, _ => false
  end.

Definition oneOf (name : list ascii) (names : list string) : bool :=
  existsb (fun n => sameText name (txt n)) names.

(** One call of [api.sendMessage(text, options)]. *)
Record Request : Type := {
  reqText : list ascii;
  reqOptions : option (gmap string jsval)
}.

(** What the program is run against: the options of [userOptions], the
    regular-expression engine behind [new RegExp(pattern, 'gi')] (None: the
    pattern is refused with a SyntaxError), the file system, the prompt
    files, the code picker, and the chat endpoint, whose answer to a request
    may depend on the requests made before. *)
Record Env : Type := {
  options : IUserOptions;
  newRegExp : list ascii -> option Matcher;
  readFileSync : list ascii -> option (list ascii);
  readPromptFile : string -> Outcome (list ascii);
  pickFunctionOrClassCodeArray : list ascii -> Outcome (list (list ascii));
  api : list Request -> Request -> Outcome (gmap string jsval)
}.

(** ** The world and its computations *)

(** What the progress indicator and the console are told; the texts shown
    are not kept. *)
Inductive UiEvent : Type :=
| SpinnerStart
| SpinnerSucceed
| SpinnerFail
| SpinnerStop
| ConsoleError (e : Error).

Record World : Type := {
  requests : list Request;                      (* sent so far, oldest first *)
  parentMessage : option (gmap string jsval);   (* this.parentMessage *)
  controllers : nat;                            (* AbortControllers created *)
  output : list UiEvent
}.

Definition M (A : Type) : Type := World -> Outcome A * World.

Definition ret {A} (a : A) : M A := fun w => (Resolved a, w).

Definition bind {A B} (c : M A) (k : A -> M B) : M B := fun w =>
  match c w with
  | (Resolved a, w') => k a w'
  | (Rejected e, w') => (Rejected e, w')
  end.

Definition await {A} (o : Outcome A) : M A := fun w => (o, w).

Definition catch {A} (c : M A) (handler : Error -> M A) : M A := fun w =>
  match c w with
  | (Resolved a, w') => (Resolved a, w')
  | (Rejected e, w') => handler e w'
  end.

Definition finally {A} (c : M A) (f : M unit) : M A := fun w =>
  match c w with
  | (o, w') =>
      match f w' with
      | (Resolved _, w'') => (o, w'')
      | (Rejected e, w'') => (Rejected e, w'')
      end
  end.

Notation "'let*' x ':=' c 'in' k" := (bind c (fun x => k))
  (at level 10, x name, c at level 100, k at level 200).

Notation "c1 ';;;' c2" := (bind c1 (fun _ => c2))
  (at level 100, c2 at level 200, right associativity).

Definition emit (ev : UiEvent) : M unit := fun w =>
  (Resolved tt,
   {| requests := requests w; parentMessage := parentMessage w;
      controllers := controllers w; output := output w ++ [ev] |}).

Definition getParentMessage : M (option (gmap string jsval)) := fun w =>
  (Resolved (parentMessage w), w).

Definition setParentMessage (m : option (gmap string jsval)) : M unit := fun w =>
  (Resolved tt,
   {| requests := requests w; parentMessage := m;
      controllers := controllers w; output := output w |}).

(** [new AbortController()]: the signal of a controller of its own. *)
Definition newAbortController : M jsval := fun w =>
  (Resolved (JAbortSignal (controllers w)),
   {| requests := requests w; parentMessage := parentMessage w;
      controllers := Datatypes.S (controllers w); output := output w |}).

Definition truthy (s : option (list ascii)) : bool :=
  match s with
  | Some (_ :: _) => true
  | _ => false
  end.

Definition withParent (message : gmap string jsval) (w : World) : World :=
  {| requests := requests w; parentMessage := Some message;
     controllers := controllers w; output := output w |}.

Definition textsOf (replies : list (gmap string jsval)) : list jsval :=
  map (fun reply => get reply "text") replies.

(** The identifiers a reply is chained by, and the parent context a request
    carries. *)
Definition identifiers (message : gmap string jsval) : jsval * jsval :=
  (get message "conversationId", get message "id").

Definition parentOf (rq : Request) : jsval * jsval :=
  match reqOptions rq with
  | Some o => (get o "conversationId", get o "parentMessageId")
  | None => (JUndefined, JUndefined)
  end.

(** ** The program *)

Section Program.
Variable E : Env.

(** *** constant.ts *)

(** The getter [userOptions.huskyGPTType]. *)
Definition userOptions_huskyGPTType : Outcome HuskyGPTTypeEnum :=
  match huskyGPTType (options E) with
  | Some t => Resolved t
  | None => Rejected HuskyGPTTypeNotSet
  end.

Definition REMOVED : list ascii := txt "REMOVED".

Definition securityPrompt (prompt : list ascii) : Outcome (list ascii) :=
  if negb (truthy (securityRegex (options E))) then Resolved prompt
  else
    let pattern := default [] (securityRegex (options E)) in
    match newRegExp E pattern with
    | None => Rejected (SyntaxError pattern)
    | Some regex => Resolved (jsReplace regex prompt REMOVED)
    end.

(** *** prompt.ts *)

(** [fileResult.fileContent || fs.readFileSync(fileResult.filePath!, 'utf-8')] *)
Definition fileContentOf (fileResult : IReadFileResult) : Outcome (list ascii) :=
  if truthy (fileContent fileResult)
  then Resolved (default [] (fileContent fileResult))
  else
    match filePath fileResult with
    | None => Rejected (ReadFileError None)
    | Some path =>
        match readFileSync E path with
        | Some content => Resolved content
        | None => Rejected (ReadFileError (Some path))
        end
    end.

Definition spaces (n : nat) : list ascii := repeat " "%char n.

(** The template literal of the three entries of the map. *)
Definition basePromptOf (instructions : list ascii) : list ascii :=
  [newline] ++ spaces 8 ++ instructions ++
  [newline] ++ spaces 8 ++
    (if truthy (openAIPrompt (options E))
     then default [] (openAIPrompt (options E)) else []) ++
  [newline] ++ spaces 6.

Definition promptsWith (promptFile : string) (fileResult : IReadFileResult)
  : Outcome PromptValue :=
  match fileContentOf fileResult with
  | Rejected e => Rejected e
  | Resolved content =>
      match readPromptFile E promptFile with
      | Rejected e => Rejected e
      | Resolved instructions =>
          match pickFunctionOrClassCodeArray E content with
          | Rejected e => Rejected e
          | Resolved codePrompts =>
              Resolved (PromptArray (basePromptOf instructions :: codePrompts))
          end
      end
  end.

(** What [huskyGPTTypeMap[name]] finds for a name that is not a key of the
    map: the member of that name the object literal inherits from
    Object.prototype, given by what the call [member(fileResult)] on the map
    does. [toString] and [toLocaleString] return the text of a plain
    object; [valueOf] returns the map and [constructor], which is [Object],
    the file result; [hasOwnProperty], [isPrototypeOf] and
    [propertyIsEnumerable] are asked about the file result and answer
    false; the two lookups of accessors find none; [__defineGetter__] and
    [__defineSetter__] get no function and throw a TypeError, and so does
    the call of [__proto__], which is an object and no function. Any other
    name finds nothing. *)
Definition objectPrototype (name : list ascii)
  : option (IReadFileResult -> Outcome PromptValue) :=
  if oneOf name ["toString"; "toLocaleString"]%string
  then Some (fun _ => Resolved (PromptString (txt "[object Object]")))
  else if oneOf name ["valueOf"]%string
  then Some (fun _ => Resolved PromptMapObject)
  else if oneOf name ["constructor"]%string
  then Some (fun fileResult => Resolved (PromptFileResult fileResult))
  else if oneOf name ["hasOwnProperty"; "isPrototypeOf"; "propertyIsEnumerable"]%string
  then Some (fun _ => Resolved (PromptBoolean false))
  else if oneOf name ["__lookupGetter__"; "__lookupSetter__"]%string
  then Some (fun _ => Resolved PromptUndefined)
  else if oneOf name ["__defineGetter__"; "__defineSetter__"; "__proto__"]%string
  then Some (fun _ => Rejected TypeError)
  else None.

(** [huskyGPTTypeMap[t]], with what the call of the value found does. The
    entry of Commit reads its instructions through
    [path.join(ROOT_SRC_DIR_PATH, ...)]; prompt.ts imports neither name,
    so that [path] is an unresolvable reference when the entry runs. A
    type that is no key of the map is looked up in Object.prototype. *)
Definition huskyGPTTypeMap (t : HuskyGPTTypeEnum)
  : option (IReadFileResult -> Outcome PromptValue) :=
  match t with
  | Test => Some (promptsWith "tests.txt")
  | Review => Some (promptsWith "review.txt")
  | Commit =>
      Some (fun fileResult =>
              match fileContentOf fileResult with
              | Rejected e => Rejected e
              | Resolved _ => Rejected (ReferenceError "path")
              end)
  | OtherType name => objectPrototype name
  end.

(** [HuskyGPTPrompt.generatePrompt], for [new HuskyGPTPrompt(t)]. *)
Definition HuskyGPTPrompt_generatePrompt (t : HuskyGPTTypeEnum)
    (fileResult : option IReadFileResult) : Outcome PromptValue :=
  match fileResult with
  | None => Rejected FilePathRequired
  | Some fileResult =>
      match huskyGPTTypeMap t with
      | None => Rejected (InvalidHuskyGPTType t)
      | Some template => template fileResult
      end
  end.

(** *** ChatgptProxyAPI *)

Definition needPrintMessage : Outcome bool :=
  match userOptions_huskyGPTType with
  | Rejected e => Rejected e
  | Resolved t =>
      Resolved (match t with Review | Test | Commit => true | OtherType _ => false end)
  end.

(** The private [generatePrompt]. *)
Definition generatePrompt (fileResult : option IReadFileResult)
  : Outcome PromptValue :=
  match userOptions_huskyGPTType with
  | Rejected e => Rejected e
  | Resolved t => HuskyGPTPrompt_generatePrompt t fileResult
  end.

(** The array pattern [[systemPrompt, ...codePrompts] = promptArray]
    iterates the value: an array gives its elements, a text its characters
    one by one, and a value that cannot be iterated throws a TypeError. *)
Definition arrayFrom (promptArray : PromptValue) : Outcome (list (list ascii)) :=
  match promptArray with
  | PromptArray prompts => Resolved prompts
  | PromptString s => Resolved (map (fun c => [c]) s)
  | _ => Rejected TypeError
  end.

(** Lines 158-159: the prompts sendFileResult works on. *)
Definition promptArrayOf (fileResult : option IReadFileResult)
  : Outcome (list (list ascii)) :=
  match generatePrompt fileResult with
  | Rejected e => Rejected e
  | Resolved promptArray => arrayFrom promptArray
  end.

(** [/perfect!/gi] *)
Definition perfectRegex : Matcher := literalCI (txt "perfect!").

Definition isReviewPassed (message : list ascii) : Outcome bool :=
  match userOptions_huskyGPTType with
  | Rejected e => Rejected e
  | Resolved Review => Resolved (jsTest perfectRegex message)
  | Resolved _ => Resolved true
  end.

(** [oraStart(text)], the second argument left to its default: the
    spinner is started only when there is something to print. *)
Definition oraStart : M unit :=
  let* needPrint := await needPrintMessage in
  if needPrint then emit SpinnerStart else ret tt.

(** [this.api.sendMessage(text, options)]: the request is recorded, the
    endpoint answers. *)
Definition apiSendMessage (text : list ascii) (opts : option (gmap string jsval))
  : M (gmap string jsval) := fun w =>
  let rq := {| reqText := text; reqOptions := opts |} in
  (api E (requests w) rq,
   {| requests := requests w ++ [rq]; parentMessage := parentMessage w;
      controllers := controllers w; output := output w |}).

Definition onProgress : jsval :=
  JFunction (txt "(partialResponse) => { reviewSpinner.text = partialResponse.text; }").

(** Lines 108-117: [{...prevMessage, timeoutMs, abortSignal, onProgress}]. *)
Definition sendOptionsOf (prevMessage : gmap string jsval) (signal : jsval)
  : gmap string jsval :=
  <["onProgress" := onProgress]>
    (<["abortSignal" := signal]>
       (<["timeoutMs" := JNumber (1000 * 60 * 5)]> prevMessage)).

(** Lines 127-131: [{...sendOptions, conversationId, parentMessageId}]. *)
Definition continueOptionsOf (sendOptions resMessage : gmap string jsval)
  : gmap string jsval :=
  <["parentMessageId" := get resMessage "id"]>
    (<["conversationId" := get resMessage "conversationId"]> sendOptions).

(** Lines 133-137: [{...resMessage, ...nextMessage, text}]. *)
Definition mergeContinuation (resMessage nextMessage : gmap string jsval)
  : gmap string jsval :=
  <["text" := JString (toString (get resMessage "text")
                       ++ toString (get nextMessage "text"))]>
    (spread resMessage nextMessage).

Definition continueMessage : list ascii := txt "continue".

(** [resMessage.text.match]: only a string has the method. *)
Definition textOf (message : gmap string jsval) : Outcome (list ascii) :=
  match get message "text" with
  | JString s => Resolved s
  | _ => Rejected TypeError
  end.

Definition sendMessage (prompt : list ascii)
    (prevMessage : option (gmap string jsval)) : M (gmap string jsval) :=
  let* securityPrompt := await (securityPrompt prompt) in
  match prevMessage with
  | None => apiSendMessage securityPrompt None
  | Some prevMessage =>
      oraStart ;;;
      let* signal := newAbortController in
      let sendOptions := sendOptionsOf prevMessage signal in
      let* resMessage := apiSendMessage securityPrompt (Some sendOptions) in
      let* text := await (textOf resMessage) in
      let* resMessage :=
        (if needsContinuation text
         then
           let* nextMessage :=
             apiSendMessage continueMessage
               (Some (continueOptionsOf sendOptions resMessage)) in
           ret (mergeContinuation resMessage nextMessage)
         else ret resMessage) in
      let* passed := await (isReviewPassed (toString (get resMessage "text"))) in
      emit (if passed then SpinnerSucceed else SpinnerFail) ;;;
      ret resMessage
  end.

(** Lines 166-169: [{conversationId: message?.conversationId,
    parentMessageId: message?.id}]. *)
Definition parentContextOf (message : gmap string jsval) : gmap string jsval :=
  <["parentMessageId" := get message "id"]>
    (<["conversationId" := get message "conversationId"]> ∅).

(** Lines 165-173: the loop of sendFileResult. *)
Fixpoint forCodePrompts (codePrompts : list (list ascii))
    (message : gmap string jsval) (messageArray : list jsval) : M (list jsval) :=
  match codePrompts with
  | [] => ret messageArray
  | prompt :: codePrompts' =>
      let* message := sendMessage prompt (Some (parentContextOf message)) in
      setParentMessage (Some message) ;;;
      forCodePrompts codePrompts' message (messageArray ++ [get message "text"])
  end.

Definition sendFileResult (fileResult : option IReadFileResult) : M (list jsval) :=
  let* promptArray := await (promptArrayOf fileResult) in
  match promptArray with
  | [] | [_] => ret []
  | systemPrompt :: codePrompts =>
      let* parent := getParentMessage in
      let* message :=
        (match parent with
         | Some message => ret message
         | None => sendMessage systemPrompt None
         end) in
      forCodePrompts codePrompts message []
  end.

(** Lines 182-185: the loop of sendPrompts. *)
Fixpoint forPrompts (prompts : list (list ascii)) (messageArray : list jsval)
  : M (list jsval) :=
  match prompts with
  | [] => ret messageArray
  | prompt :: prompts' =>
      let* message := sendMessage prompt None in
      forPrompts prompts' (messageArray ++ [get message "text"])
  end.

Definition sendPrompts (prompts : list (list ascii)) : M (list jsval) :=
  forPrompts prompts [].

Definition resetParentMessage : M unit := setParentMessage None.

Definition failureMessage : jsval := JString (txt "[huskygpt] call OpenAI API failed!").

Definition run (fileResult : option IReadFileResult) : M (list jsval) :=
  await userOptions_huskyGPTType ;;;
  oraStart ;;;
  finally
    (catch
       (let* res := sendFileResult fileResult in
        await userOptions_huskyGPTType ;;;
        emit SpinnerSucceed ;;;
        ret res)
       (fun error =>
          emit (ConsoleError error) ;;;
          await userOptions_huskyGPTType ;;;
          emit SpinnerFail ;;;
          ret [failureMessage]))
    (emit SpinnerStop).

(** *** One call of sendMessage, case by case *)

Definition firstRequest (securityPrompt : list ascii)
    (prevMessage : gmap string jsval) (w : World) : Request :=
  {| reqText := securityPrompt;
     reqOptions := Some (sendOptionsOf prevMessage (JAbortSignal (controllers w))) |}.

Definition continueRequest (prevMessage : gmap string jsval) (w : World)
    (resMessage : gmap string jsval) : Request :=
  {| reqText := continueMessage;
     reqOptions :=
       Some (continueOptionsOf
               (sendOptionsOf prevMessage (JAbortSignal (controllers w)))
               resMessage) |}.

(** [SendChained prompt prev w sent o]: called with a parent context in
    the world [w], sendMessage sends the requests [sent] and ends as [o]. *)
Inductive SendChained (prompt : list ascii) (prev : gmap string jsval) (w : World)
  : list Request -> Outcome (gmap string jsval) -> Prop :=
| Send_refused e :
    securityPrompt prompt = Rejected e ->
    SendChained prompt prev w [] (Rejected e)
| Send_unset sp :
    securityPrompt prompt = Resolved sp ->
    huskyGPTType (options E) = None ->
    SendChained prompt prev w [] (Rejected HuskyGPTTypeNotSet)
| Send_failed sp t e :
    securityPrompt prompt = Resolved sp ->
    huskyGPTType (options E) = Some t ->
    api E (requests w) (firstRequest sp prev w) = Rejected e ->
    SendChained prompt prev w [firstRequest sp prev w] (Rejected e)
| Send_no_text sp t res :
    securityPrompt prompt = Resolved sp ->
    huskyGPTType (options E) = Some t ->
    api E (requests w) (firstRequest sp prev w) = Resolved res ->
    textOf res = Rejected TypeError ->
    SendChained prompt prev w [firstRequest sp prev w] (Rejected TypeError)
| Send_whole sp t res text :
    securityPrompt prompt = Resolved sp ->
    huskyGPTType (options E) = Some t ->
    api E (requests w) (firstRequest sp prev w) = Resolved res ->
    textOf res = Resolved text ->
    needsContinuation text = false ->
    SendChained prompt prev w [firstRequest sp prev w] (Resolved res)
| Send_continue_failed sp t res text e :
    securityPrompt prompt = Resolved sp ->
    huskyGPTType (options E) = Some t ->
    api E (requests w) (firstRequest sp prev w) = Resolved res ->
    textOf res = Resolved text ->
    needsContinuation text = true ->
    api E (requests w ++ [firstRequest sp prev w]) (continueRequest prev w res)
      = Rejected e ->
    SendChained prompt prev w
      [firstRequest sp prev w; continueRequest prev w res] (Rejected e)
| Send_continued sp t res text next :
    securityPrompt prompt = Resolved sp ->
    huskyGPTType (options E) = Some t ->
    api E (requests w) (firstRequest sp prev w) = Resolved res ->
    textOf res = Resolved text ->
    needsContinuation text = true ->
    api E (requests w ++ [firstRequest sp prev w]) (continueRequest prev w res)
      = Resolved next ->
    SendChained prompt prev w
      [firstRequest sp prev w; continueRequest prev w res]
      (Resolved (mergeContinuation res next)).

(** *** The loop of sendFileResult, pass by pass *)

(** [Pass message prompts w replies w']: from the world [w], with [message]
    as the reply to chain on, every prompt of [prompts] is sent in turn and
    answered; [replies] are the answers sendMessage returned, [w'] is the
    world after the last. *)
Inductive Pass : gmap string jsval -> list (list ascii) -> World ->
                 list (gmap string jsval) -> World -> Prop :=
| Pass_nil message w : Pass message [] w [] w
| Pass_cons message prompt prompts w reply w1 replies w2 :
    sendMessage prompt (Some (parentContextOf message)) w = (Resolved reply, w1) ->
    Pass reply prompts (withParent reply w1) replies w2 ->
    Pass message (prompt :: prompts) w (reply :: replies) w2.

(** How sendFileResult gets the message the first prompt chains on. *)
Inductive Bootstrapped (systemPrompt : list ascii) (w : World)
  : gmap string jsval -> World -> Prop :=
| Boot_retained message :
    parentMessage w = Some message ->
    Bootstrapped systemPrompt w message w
| Boot_sent message w1 :
    parentMessage w = None ->
    sendMessage systemPrompt None w = (Resolved message, w1) ->
    Bootstrapped systemPrompt w message w1.

(** [Continued history res continuation reply]: [res] is what the endpoint
    answered to the request of a prompt, the last of [history];
    [continuation] are the requests that follow it and [reply] is what
    sendMessage returns: none and [res] as it came when its text has an
    even number of fence markers; when it has an odd number, one "continue"
    that carries the identifiers of [res], and [res] merged with what the
    endpoint answered to it. *)
Inductive Continued (history : list Request) (res : gmap string jsval)
  : list Request -> gmap string jsval -> Prop :=
| Continued_no text :
    textOf res = Resolved text -> needsContinuation text = false ->
    Continued history res [] res
| Continued_once c text next :
    textOf res = Resolved text -> needsContinuation text = true ->
    reqText c = continueMessage ->
    parentOf c = identifiers res ->
    api E history c = Resolved next ->
    Continued history res [c] (mergeContinuation res next).

(** [Chained history cursor prompts sent replies]: after the requests of
    [history], [sent] is, prompt after prompt, the request of the prompt
    and the continuation that may follow it, and [replies] are, prompt
    after prompt, what the endpoint answered to them, merged where a reply
    was continued; every request of a prompt carries the identifiers of
    the reply of the prompt before it, the first those of [cursor]. *)
Inductive Chained : list Request -> gmap string jsval -> list (list ascii) ->
                    list Request -> list (gmap string jsval) -> Prop :=
| Chained_nil history cursor : Chained history cursor [] [] []
| Chained_cons history cursor prompt prompts first res continuation reply
    sent replies :
    securityPrompt prompt = Resolved (reqText first) ->
    parentOf first = identifiers cursor ->
    api E history first = Resolved res ->
    Continued (history ++ [first]) res continuation reply ->
    Chained (history ++ first :: continuation) reply prompts sent replies ->
    Chained history cursor (prompt :: prompts) (first :: continuation ++ sent)
      (reply :: replies).

End Program.

(** The world in which run calls sendFileResult: the spinner is started. *)
Definition started (E : Env) (w : World) : World := snd (oraStart E w).

(** ** What the prompt builder is given

    The program throws plain errors, told apart by their messages. *)


(** The names of the members of Object.prototype. *)
Definition objectPrototypeNames : list string :=
  [ "toString"; "toLocaleString"; "valueOf"; "constructor"; "hasOwnProperty";
    "isPrototypeOf"; "propertyIsEnumerable"; "__lookupGetter__";
    "__lookupSetter__"; "__defineGetter__"; "__defineSetter__"; "__proto__" ]%string.


(** A request that carries the five minutes and the signal of a controller. *)
Definition carriesTimeout (rq : Request) : Prop :=
  exists o controller,
    reqOptions rq = Some o /\
    o !! "timeoutMs" = Some (JNumber 300000) /\
    o !! "abortSignal" = Some (JAbortSignal controller).

(** The requests a computation added to those of [w]. *)
Definition requestsSince (w w' : World) : list Request :=
  drop (length (requests w)) (requests w').

Definition isChained (rq : Request) : bool :=
  match reqOptions rq with Some _ => true | None => false end.

(** ** An environment to run the program in *)

(** Splits a text at its line ends; empty lines are dropped. *)
Fixpoint linesFrom (s current : list ascii) : list (list ascii) :=
  match s with
  | [] => match current with [] => [] | _ => [current] end
  | c :: s' =>
      if Ascii.eqb c newline
      then match current with
           | [] => linesFrom s' []
           | _ => current :: linesFrom s' []
           end
      else linesFrom s' (current ++ [c])
  end.

Definition chatMessage (id conversationId text : string) : gmap string jsval :=
  <["id" := JString (txt id)]>
    (<["conversationId" := JString (txt conversationId)]>
       (<["text" := JString (txt text)]>
          (<["role" := JString (txt "assistant")]> ∅))).

Definition noReply : Outcome (gmap string jsval) :=
  Rejected (SendMessageError (ChatGPTError (txt "no reply"))).

(** An endpoint that answers the n-th request with the n-th entry. *)
Definition scriptedApi (script : list (Outcome (gmap string jsval)))
  : list Request -> Request -> Outcome (gmap string jsval) :=
  fun history _ => nth (length history) script noReply.

(** Patterns are taken literally, no file can be read, the code picker
    yields the lines of the content. *)
Definition scriptedEnv (opts : IUserOptions)
    (script : list (Outcome (gmap string jsval))) : Env :=
  {| options := opts;
     newRegExp := fun pattern => Some (literalCI pattern);
     readFileSync := fun _ => None;
     readPromptFile := fun _ => Resolved (txt "Write unit tests.");
     pickFunctionOrClassCodeArray := fun content => Resolved (linesFrom content []);
     api := scriptedApi script |}.

Definition testOptions : IUserOptions :=
  {| huskyGPTType := Some Test; securityRegex := None; openAIPrompt := None |}.

Definition secretOptions (pattern : string) : IUserOptions :=
  {| huskyGPTType := Some Test; securityRegex := Some (txt pattern);
     openAIPrompt := None |}.


Definition freshWorld : World :=
  {| requests := []; parentMessage := None; controllers := 0; output := [] |}.

Definition promptF : list ascii := txt "function f() {}".
Definition promptG : list ascii := txt "function g() {}".

Definition twoFunctions : option IReadFileResult :=
  Some {| filePath := None;
          fileContent := Some (promptF ++ [newline] ++ promptG) |}.

Definition blankFile : option IReadFileResult :=
  Some {| filePath := None; fileContent := Some [newline] |}.


Definition taskReply : gmap string jsval := chatMessage "m0" "c0" "ok".
Definition cutReply : gmap string jsval := chatMessage "m1" "c1" "```ts it('f')".
Definition restReply : gmap string jsval := chatMessage "m2" "c2" " ```".
Definition moreReply : gmap string jsval := chatMessage "m2" "c2" " expect(f())".
Definition wholeReply : gmap string jsval := chatMessage "m3" "c2" "```ts it('g') ```".

(** The reply to the first function stops inside a code block. *)
Definition cutOnce : Env :=
  scriptedEnv testOptions
    [Resolved taskReply; Resolved cutReply; Resolved restReply; Resolved wholeReply].

(** The replies to both functions stop inside a code block. *)
Definition cutTwice : Env :=
  scriptedEnv testOptions
    [Resolved taskReply; Resolved cutReply; Resolved restReply;
     Resolved cutReply; Resolved restReply].

(** The second function is not answered in time. *)
Definition timedOut : Env :=
  scriptedEnv testOptions
    [Resolved taskReply; Resolved wholeReply;
     Rejected (SendMessageError TimeoutError)].

(** The reply to "continue" does not close the code block. *)
Definition stillCut : Env :=
  scriptedEnv testOptions [Resolved cutReply; Resolved moreReply].

Definition closedByContinue : Env :=
  scriptedEnv testOptions [Resolved cutReply; Resolved restReply].

(** The pattern matches the text of the continuation. *)
Definition continueIsSecret : Env :=
  scriptedEnv (secretOptions "continue") [Resolved cutReply; Resolved restReply].

Definition secretIsSecret : Env := scriptedEnv (secretOptions "secret") [].




Definition promptH : list ascii := txt "function h() {}".

Definition threeFunctions : option IReadFileResult :=
  Some {| filePath := None;
          fileContent := Some (promptF ++ [newline] ++ promptG ++ [newline] ++ promptH) |}.

Definition taskPrompt : list ascii := basePromptOf cutOnce (txt "Write unit tests.").

(** * Part I, continued: the rest of the three files *)

(** ** ChatgptProxyAPI: what the requests and the spinner show *)

(** The abort signal a request carries. *)
Definition signalOf (rq : Request) : jsval :=
  match reqOptions rq with
  | Some o => get o "abortSignal"
  | None => JUndefined
  end.

(** [s] has a stretch that equals [pattern] when case is ignored. *)
Definition containsCI (pattern s : list ascii) : Prop :=
  exists before mid after,
    s = before ++ mid ++ after /\
    map canonicalize mid = map canonicalize pattern.

(** What oraStart adds to the output for a type. *)
Definition startEvents (t : HuskyGPTTypeEnum) : list UiEvent :=
  match t with
  | OtherType _ => []
  | _ => [SpinnerStart]
  end.

(** The prompt file of a type that has one. *)
Definition promptFileOf (t : HuskyGPTTypeEnum) : option string :=
  match t with
  | Test => Some "tests.txt"%string
  | Review => Some "review.txt"%string
  | _ => None
  end.

(** The same environment over another file system. *)
Definition withReadFileSync (E : Env) (fs : list ascii -> option (list ascii)) : Env :=
  {| options := options E;
     newRegExp := newRegExp E;
     readFileSync := fs;
     readPromptFile := readPromptFile E;
     pickFunctionOrClassCodeArray := pickFunctionOrClassCodeArray E;
     api := api E |}.

Definition commitOptions : IUserOptions :=
  {| huskyGPTType := Some Commit; securityRegex := None; openAIPrompt := None |}.

Definition reviewOptions : IUserOptions :=
  {| huskyGPTType := Some Review; securityRegex := None; openAIPrompt := None |}.

Definition committing : Env := scriptedEnv commitOptions [Resolved taskReply].

Definition praised : gmap string jsval := chatMessage "m1" "c1" "```ts ok".
Definition praise : gmap string jsval := chatMessage "m2" "c1" "``` Perfect!".

(** ** constant.ts: codeBlocksRegex *)

Definition startsWithFence (s : list ascii) : bool :=
  match s with
  | c1 :: c2 :: c3 :: _ =>
      Ascii.eqb c1 backtick && Ascii.eqb c2 backtick && Ascii.eqb c3 backtick
  | _ => false
  end.

(** The index of the first three backticks of [s]. *)
Fixpoint findFence (s : list ascii) : option nat :=
  match s with
  | [] => None
  | _ :: s' =>
      if startsWithFence s then Some 0 else option_map Datatypes.S (findFence s')
  end.

(** [codeBlocksRegex = /```([\s\S]*?)```/g]: three backticks, the shortest
    text that three backticks follow, and these three backticks. *)
Definition codeBlocksRegex : Matcher := fun S i =>
  if startsWithFence (drop i S)
  then option_map (fun body => 3 + body + 3) (findFence (drop (i + 3) S))
  else None.

(** [text.match(codeBlocksRegex) || []] *)
Definition codeBlocks (text : list ascii) : list (list ascii) :=
  default [] (jsMatch codeBlocksRegex text).

(** ** constant.ts: the options of the client *)

Definition OPENAI_API_KEY_NAME : list ascii := txt "OPENAI_API_KEY".
Definition OPENAI_SESSION_TOKEN_NAME : list ascii := txt "OPENAI_SESSION_TOKEN".

(** [DEFAULT_MODELS] *)
Definition apiModel : list ascii := txt "gpt-3.5-turbo".
Definition proxyModel : list ascii := txt "text-davinci-002-render-sha".

Inductive ConfigError : Type :=
| OpenAIKeyNotSet             (* 'openAIKey is not set' *)
| OpenAIModelNotSet           (* 'openAIModel is not set' *)
| ReadFileExtensionsNotSet.   (* 'readFileExtensions is not set' *)

(** The fields of [userOptions.options] the client is built from. *)
Record ClientOptions : Type := {
  debug : bool;
  openAIKey : option (list ascii);
  openAISessionToken : option (list ascii);
  openAIProxyUrl : option (list ascii);
  openAIModel : option (list ascii);
  openAIMaxTokens : jsval;
  readFileExtensions : option (list ascii)
}.

(** The options as they stand, and the keys [npm config get] was run for. *)
Record Config : Type := {
  clientOptions : ClientOptions;
  npmQueries : list (list ascii)
}.

Definition setOpenAIKey (v : list ascii) (c : Config) : Config :=
  {| clientOptions :=
       {| debug := debug (clientOptions c);
          openAIKey := Some v;
          openAISessionToken := openAISessionToken (clientOptions c);
          openAIProxyUrl := openAIProxyUrl (clientOptions c);
          openAIModel := openAIModel (clientOptions c);
          openAIMaxTokens := openAIMaxTokens (clientOptions c);
          readFileExtensions := readFileExtensions (clientOptions c) |};
     npmQueries := npmQueries c |}.

Definition setOpenAISessionToken (v : list ascii) (c : Config) : Config :=
  {| clientOptions :=
       {| debug := debug (clientOptions c);
          openAIKey := openAIKey (clientOptions c);
          openAISessionToken := Some v;
          openAIProxyUrl := openAIProxyUrl (clientOptions c);
          openAIModel := openAIModel (clientOptions c);
          openAIMaxTokens := openAIMaxTokens (clientOptions c);
          readFileExtensions := readFileExtensions (clientOptions c) |};
     npmQueries := npmQueries c |}.

Definition setOpenAIModel (v : list ascii) (c : Config) : Config :=
  {| clientOptions :=
       {| debug := debug (clientOptions c);
          openAIKey := openAIKey (clientOptions c);
          openAISessionToken := openAISessionToken (clientOptions c);
          openAIProxyUrl := openAIProxyUrl (clientOptions c);
          openAIModel := Some v;
          openAIMaxTokens := openAIMaxTokens (clientOptions c);
          readFileExtensions := readFileExtensions (clientOptions c) |};
     npmQueries := npmQueries c |}.

(** White space and line ends, as [String.prototype.trim] removes them. *)
Definition isWhiteSpace (c : ascii) : bool :=
  let n := nat_of_ascii c in
  ((9 <=? n) && (n <=? 13)) || (n =? 32) || (n =? 160).

Fixpoint trimStart (s : list ascii) : list ascii :=
  match s with
  | c :: s' => if isWhiteSpace c then trimStart s' else s
  | [] => []
  end.

Definition trim (s : list ascii) : list ascii :=
  rev (trimStart (rev (trimStart s))).

(** [s.split(sep)] for a separator of one character. *)
Fixpoint split (sep : ascii) (s : list ascii) : list (list ascii) :=
  match s with
  | [] => [[]]
  | c :: s' =>
      if Ascii.eqb c sep then [] :: split sep s'
      else match split sep s' with
           | first :: others => (c :: first) :: others
           | [] => [[c]]
           end
  end.

(** [parts.join(sep)] *)
Fixpoint join (sep : ascii) (parts : list (list ascii)) : list ascii :=
  match parts with
  | [] => []
  | [part] => part
  | part :: parts' => part ++ sep :: join sep parts'
  end.

(** [completionParams] *)
Record CompletionParams : Type := {
  temperature : QArith_base.Q;
  top_p : QArith_base.Q;
  stop : list (list ascii);
  model : list ascii;
  max_tokens : jsval
}.

(** The client [initApi] builds. *)
Inductive ApiClient : Type :=
| ChatGPTAPI (apiKey : list ascii) (completionParams : CompletionParams)
    (debugFlag : bool)
| ChatGPTUnofficialProxyAPI (modelName accessToken : list ascii)
    (apiReverseProxyUrl : option (list ascii)).

Definition nonEmpty (s : list ascii) : bool :=
  match s with [] => false | _ :: _ => true end.

Section Constant.
(** The output of [npm config get key], None when the command fails; and
    whether [process.env.DEBUG] is set. *)
Variable execSync : list ascii -> option (list ascii).
Variable processEnvDEBUG : bool.

Definition getOpenAIKeyFromNpmConfig (key : list ascii) (c : Config)
  : list ascii * Config :=
  (match execSync key with
   | Some out => trim out
   | None => []
   end,
   {| clientOptions := clientOptions c; npmQueries := npmQueries c ++ [key] |}).

(** The getter [openAIKey]. *)
Definition userOptions_openAIKey (c : Config) : (ConfigError + list ascii) * Config :=
  let c1 :=
    if truthy (openAIKey (clientOptions c)) then c
    else let (v, c') := getOpenAIKeyFromNpmConfig OPENAI_API_KEY_NAME c in
         setOpenAIKey v c' in
  if truthy (openAIKey (clientOptions c1))
  then (inr (default [] (openAIKey (clientOptions c1))), c1)
  else (inl OpenAIKeyNotSet, c1).

(** The getter [openAISessionToken]. *)
Definition userOptions_openAISessionToken (c : Config) : list ascii * Config :=
  let c1 :=
    if truthy (openAISessionToken (clientOptions c)) then c
    else let (v, c') := getOpenAIKeyFromNpmConfig OPENAI_SESSION_TOKEN_NAME c in
         setOpenAISessionToken v c' in
  (default [] (openAISessionToken (clientOptions c1)), c1).

(** The getter [openAISendByProxy]:
    [openAIProxyUrl && openAISessionToken && openAISessionToken !== 'undefined']. *)
Definition userOptions_openAISendByProxy (c : Config) : bool * Config :=
  if truthy (openAIProxyUrl (clientOptions c))
  then
    let (token, c1) := userOptions_openAISessionToken c in
    if nonEmpty token
    then
      let (token', c2) := userOptions_openAISessionToken c1 in
      (negb (sameText token' (txt "undefined")), c2)
    else (false, c1)
  else (false, c).

(** The getter [openAIModel]. *)
Definition userOptions_openAIModel (c : Config) : list ascii * Config :=
  let (byProxy, c1) := userOptions_openAISendByProxy c in
  if byProxy
  then
    match openAIModel (clientOptions c1) with
    | Some name =>
        if sameText name apiModel
        then (proxyModel, setOpenAIModel proxyModel c1)
        else (if nonEmpty name then name else proxyModel, c1)
    | None => (proxyModel, c1)
    end
  else
    (if truthy (openAIModel (clientOptions c1))
     then default [] (openAIModel (clientOptions c1)) else apiModel, c1).

(** The getter [openAIOptions]. *)
Definition userOptions_openAIOptions (c : Config)
  : (ConfigError + CompletionParams) * Config :=
  let (name, c1) := userOptions_openAIModel c in
  if nonEmpty name
  then
    let (name', c2) := userOptions_openAIModel c1 in
    (inr {| temperature := QArith_base.Qmake 0 1;
            top_p := QArith_base.Qmake 4 10;
            stop := [txt "###"];
            model := name';
            max_tokens := openAIMaxTokens (clientOptions c2) |}, c2)
  else (inl OpenAIModelNotSet, c1).

(** The getter [readFilesExtensions]. *)
Definition userOptions_readFilesExtensions (c : Config)
  : ConfigError + list (list ascii) :=
  if truthy (readFileExtensions (clientOptions c))
  then inr (split ","%char (default [] (readFileExtensions (clientOptions c))))
  else inl ReadFileExtensionsNotSet.

(** part_000, lines 28-52: [initApi]. What the console is shown is left
    out; the getters the two logs call are called. *)
Definition initApi (c : Config) : (ConfigError + ApiClient) * Config :=
  let c1 := if processEnvDEBUG then snd (userOptions_openAISessionToken c) else c in
  let c2 := snd (userOptions_openAIModel c1) in
  let (byProxy, c3) := userOptions_openAISendByProxy c2 in
  if negb byProxy
  then
    match userOptions_openAIKey c3 with
    | (inl e, c4) => (inl e, c4)
    | (inr apiKey, c4) =>
        match userOptions_openAIOptions c4 with
        | (inl e, c5) => (inl e, c5)
        | (inr completionParams, c5) =>
            (inr (ChatGPTAPI apiKey completionParams (debug (clientOptions c5))), c5)
        end
    end
  else
    let (name, c4) := userOptions_openAIModel c3 in
    let (token, c5) := userOptions_openAISessionToken c4 in
    (inr (ChatGPTUnofficialProxyAPI name token (openAIProxyUrl (clientOptions c5))), c5).

(** *** What the getters come to *)

(** The session token, the one of the options or else the one of npm. *)
Definition tokenOf (c : Config) : list ascii :=
  if truthy (openAISessionToken (clientOptions c))
  then default [] (openAISessionToken (clientOptions c))
  else match execSync OPENAI_SESSION_TOKEN_NAME with
       | Some out => trim out
       | None => []
       end.

Definition keyOf (c : Config) : list ascii :=
  if truthy (openAIKey (clientOptions c))
  then default [] (openAIKey (clientOptions c))
  else match execSync OPENAI_API_KEY_NAME with
       | Some out => trim out
       | None => []
       end.

Definition byProxy (c : Config) : bool :=
  truthy (openAIProxyUrl (clientOptions c))
  && nonEmpty (tokenOf c) && negb (sameText (tokenOf c) (txt "undefined")).

Definition modelOf (c : Config) : list ascii :=
  if byProxy c
  then
    if sameText (default [] (openAIModel (clientOptions c))) apiModel then proxyModel
    else if truthy (openAIModel (clientOptions c))
         then default [] (openAIModel (clientOptions c)) else proxyModel
  else
    if truthy (openAIModel (clientOptions c))
    then default [] (openAIModel (clientOptions c)) else apiModel.

(** [Settled c c']: the options of [c'] are those of [c] but for what the
    getters store, which changes nothing of what they come to. *)
Definition Settled (c c' : Config) : Prop :=
  debug (clientOptions c') = debug (clientOptions c) /\
  openAIProxyUrl (clientOptions c') = openAIProxyUrl (clientOptions c) /\
  openAIMaxTokens (clientOptions c') = openAIMaxTokens (clientOptions c) /\
  readFileExtensions (clientOptions c') = readFileExtensions (clientOptions c) /\
  tokenOf c' = tokenOf c /\ keyOf c' = keyOf c /\ modelOf c' = modelOf c.
End Constant.

(** ** constant.ts: init *)

(** The values of the options: a number is kept as what [Number] was
    applied to, a member of an enumeration of types.ts by its name. *)
Inductive optval : Type :=
| OUndefined
| OString (s : list ascii)
| OBoolean (b : bool)
| ONumber (source : list ascii + Z)
| OEnum (member : string).

(** [userOptionsDefault] *)
Definition userOptionsDefault : gmap string optval :=
  <["debug" := OBoolean false]>
  (<["huskyGPTType" := OEnum "HuskyGPTTypeEnum.Review"]>
  (<["openAIModel" := OString []]>
  (<["openAIProxyUrl" := OString (txt "https://bypass.churchless.tech/api/conversation")]>
  (<["openAIMaxTokens" := ONumber (inr 4096%Z)]>
  (<["readType" := OEnum "ReadTypeEnum.GitStage"]>
  (<["readGitStatus" := OString (txt "R, M, A")]>
  (<["readFilesRootName" := OString (txt "src")]>
  (<["readFileExtensions" := OString (txt ".ts,.tsx")]>
  (<["testFileType" := OString (txt "test")]>
  (<["testFileNameExtension" := OString (txt ".ts")]>
  (<["testFileDirName" := OString (txt "__test__")]>
  (<["reviewReportWebhook" := OString []]> ∅)))))))))))).

(** [processEnv.NAME], and [processEnv.NAME || fallback]. *)
Definition envValue (env : gmap string (list ascii)) (name : string) : optval :=
  match env !! name with
  | Some s => OString s
  | None => OUndefined
  end.

Definition envOr (env : gmap string (list ascii)) (name : string) (fallback : optval)
  : optval :=
  match env !! name with
  | Some (c :: s) => OString (c :: s)
  | _ => fallback
  end.

Definition fallbackOf (key : string) : optval :=
  default OUndefined (userOptionsDefault !! key).

Definition convertProcessEnvToUserOptions (env : gmap string (list ascii))
  : gmap string optval :=
  <["debug" := OBoolean (match env !! "DEBUG" with
                         | Some s => sameText s (txt "true")
                         | None => false
                         end)]>
  (<["securityRegex" := envOr env "SECURITY_REGEX" (OString [])]>
  (<["openAIKey" := envValue env "OPENAI_API_KEY"]>
  (<["openAISessionToken" := envValue env "OPENAI_SESSION_TOKEN"]>
  (<["openAIProxyUrl" := envOr env "OPENAI_PROXY_URL" (fallbackOf "openAIProxyUrl")]>
  (<["openAIModel" := envOr env "OPENAI_MODEL" (fallbackOf "openAIModel")]>
  (<["openAIMaxTokens" :=
       ONumber (match env !! "OPENAI_MAX_TOKENS" with
                | Some (c :: s) => inl (c :: s)
                | _ => inr 4096%Z
                end)]>
  (<["readType" := envOr env "READ_TYPE" (fallbackOf "readType")]>
  (<["readGitStatus" := envOr env "READ_GIT_STATUS" (fallbackOf "readGitStatus")]>
  (<["readFilesRootName" :=
       envOr env "READ_FILES_ROOT_NAME" (fallbackOf "readFilesRootName")]>
  (<["readFileExtensions" :=
       envOr env "READ_FILE_EXTENSIONS" (fallbackOf "readFileExtensions")]>
  (<["testFileType" := envOr env "TEST_FILE_TYPE" (fallbackOf "testFileType")]>
  (<["testFileNameExtension" :=
       envOr env "TEST_FILE_NAME_EXTENSION" (fallbackOf "testFileNameExtension")]>
  (<["testFileDirName" := envOr env "TEST_FILE_DIR_NAME" (fallbackOf "testFileDirName")]>
  (<["reviewReportWebhook" := envValue env "REVIEW_REPORT_WEBHOOK"]> ∅)))))))))))))).

(** [init(userOptions)], for the environment the two [config()] calls left:
    [Object.assign({}, userOptionsDefault, envUserOptions, userOptions)]. *)
Definition init (env : gmap string (list ascii)) (userOptions : gmap string optval)
  : gmap string optval :=
  userOptions ∪ (convertProcessEnvToUserOptions env ∪ userOptionsDefault).

(** The options that an environment variable sets when it is not empty and
    that keep their default otherwise. *)
Definition environmentKnobs : list (string * string) :=
  [ ("openAIProxyUrl", "OPENAI_PROXY_URL"); ("openAIModel", "OPENAI_MODEL");
    ("readType", "READ_TYPE"); ("readGitStatus", "READ_GIT_STATUS");
    ("readFilesRootName", "READ_FILES_ROOT_NAME");
    ("readFileExtensions", "READ_FILE_EXTENSIONS");
    ("testFileType", "TEST_FILE_TYPE");
    ("testFileNameExtension", "TEST_FILE_NAME_EXTENSION");
    ("testFileDirName", "TEST_FILE_DIR_NAME") ]%string.

(** ** Configurations and runs for the examples *)

(** A review whose first reply stops inside a code block and whose
    continuation praises the code. *)
Definition reviewing : Env := scriptedEnv reviewOptions [Resolved praised; Resolved praise].

Definition otherFiles : list ascii -> option (list ascii) :=
  fun _ => Some (txt "function h() {}").

(** npm holds a session token and nothing else. *)
Definition npmWithToken : list ascii -> option (list ascii) :=
  fun key => if sameText key OPENAI_SESSION_TOKEN_NAME then Some (txt " tok ") else None.

Definition npmFails : list ascii -> option (list ascii) := fun _ => None.

Definition proxyConfig : Config :=
  {| clientOptions :=
       {| debug := false;
          openAIKey := None;
          openAISessionToken := None;
          openAIProxyUrl := Some (txt "https://proxy.example/api");
          openAIModel := Some apiModel;
          openAIMaxTokens := JNumber 4096;
          readFileExtensions := Some (txt ".ts,.tsx") |};
     npmQueries := [] |}.

Definition keyConfig : Config :=
  {| clientOptions :=
       {| debug := false;
          openAIKey := Some (txt "sk-1");
          openAISessionToken := None;
          openAIProxyUrl := None;
          openAIModel := None;
          openAIMaxTokens := JNumber 4096;
          readFileExtensions := Some (txt ".ts,.tsx") |};
     npmQueries := [] |}.

Definition modelInEnvironment : gmap string (list ascii) :=
  {[ "OPENAI_MODEL"%string := txt "gpt-4" ]}.

Definition debugByCaller : gmap string optval :=
  {[ "debug"%string := OBoolean true ]}.

(** * Part II: proofs *)

Example needsContinuation_one :
  needsContinuation (txt "```ts
const a = 1;") = true.
Proof. reflexivity. Qed.

Example needsContinuation_two :
  needsContinuation (txt "```ts
const a = 1;
```") = false.
Proof. reflexivity. Qed.

Example needsContinuation_none : needsContinuation (txt "perfect!") = false.
Proof. reflexivity. Qed.

Example jsReplace_literal :
  jsReplace (literalCI (txt "secret")) (txt "a Secret and a SECRET.") (txt "REMOVED")
  = txt "a REMOVED and a REMOVED.".
Proof. reflexivity. Qed.

(** ** Facts about the regular-expression loop *)

Section RegExpFacts.

Variable m : Matcher.

Variable S : list ascii.

Lemma regExpExecFrom_Some fuel i p l :
  regExpExecFrom m S fuel i = Some (p, l) ->
  i <= p < i + fuel /\ (forall j, i <= j < p -> m S j = None) /\
  exists len, m S p = Some len /\ l = Nat.min len (length S - p).
Proof.
  revert i. induction fuel as [|fuel IH]; intros i; simpl; [discriminate|].
  destruct (m S i) as [len|] eqn:Hm.
  - intros [= <- <-]. split; [lia|]. split; [intros j Hj; lia|].
    exists len. split; [assumption|reflexivity].
  - intros H. apply IH in H as (Hp & Hnone & Hlen).
    split; [lia|]. split; [|assumption].
    intros j Hj. destruct (Nat.eq_dec j i) as [->|Hne]; [assumption|].
    apply Hnone. lia.
Qed.

Lemma regExpExecFrom_None fuel i :
  regExpExecFrom m S fuel i = None <->
  (forall j, i <= j < i + fuel -> m S j = None).
Proof.
  revert i. induction fuel as [|fuel IH]; intros i; simpl.
  - split; [intros _ j Hj; lia|reflexivity].
  - destruct (m S i) as [len|] eqn:Hm.
    + split; [discriminate|]. intros H. rewrite H in Hm by lia. discriminate.
    + rewrite IH. split; intros H j Hj.
      * destruct (Nat.eq_dec j i) as [->|Hne]; [assumption|]. apply H. lia.
      * apply H. lia.
Qed.

Lemma regExpExecFrom_found fuel i p len :
  i <= p < i + fuel -> (forall j, i <= j < p -> m S j = None) ->
  m S p = Some len ->
  regExpExecFrom m S fuel i = Some (p, Nat.min len (length S - p)).
Proof.
  revert i. induction fuel as [|fuel IH]; intros i Hp Hnone Hm; [lia|].
  simpl. destruct (Nat.eq_dec i p) as [->|Hne].
  - rewrite Hm. reflexivity.
  - rewrite Hnone by lia. apply IH; [lia| |assumption].
    intros j Hj. apply Hnone. lia.
Qed.

Lemma regExpExec_Some i p l :
  regExpExec m S i = Some (p, l) ->
  i <= p <= length S /\ (forall j, i <= j < p -> m S j = None) /\
  exists len, m S p = Some len /\ l = Nat.min len (length S - p).
Proof.
  unfold regExpExec. intros H.
  apply regExpExecFrom_Some in H as (Hp & Hnone & Hlen).
  split; [lia|]. split; assumption.
Qed.

Lemma regExpExec_None i :
  regExpExec m S i = None <->
  (forall j, i <= j <= length S -> m S j = None).
Proof.
  unfold regExpExec. rewrite regExpExecFrom_None.
  split; intros H j Hj; apply H; lia.
Qed.

Lemma regExpExec_found i p len :
  i <= p <= length S -> (forall j, i <= j < p -> m S j = None) ->
  m S p = Some len ->
  regExpExec m S i = Some (p, Nat.min len (length S - p)).
Proof.
  intros Hp Hnone Hm. unfold regExpExec.
  apply regExpExecFrom_found; [lia|assumption|assumption].
Qed.

Lemma regExpExec_skip i :
  i <= length S -> m S i = None ->
  regExpExec m S i = regExpExec m S (i + 1).
Proof.
  intros Hi Hm. unfold regExpExec.
  replace (length S + 1 - i) with (Datatypes.S (length S + 1 - (i + 1))) by lia.
  simpl. rewrite Hm. reflexivity.
Qed.

(** The fuel of the loop is never the reason it stops. *)
Lemma globalResults_fuel f1 f2 i :
  length S + 1 - i <= f1 -> length S + 1 - i <= f2 ->
  globalResults m S f1 i = globalResults m S f2 i.
Proof.
  revert f2 i. induction f1 as [|f1 IH]; intros f2 i H1 H2.
  - destruct f2 as [|f2]; [reflexivity|]. simpl.
    unfold regExpExec. replace (length S + 1 - i) with 0 by lia. reflexivity.
  - destruct f2 as [|f2]; simpl.
    + unfold regExpExec. replace (length S + 1 - i) with 0 by lia. reflexivity.
    + destruct (regExpExec m S i) as [[p l]|] eqn:He; [|reflexivity].
      apply regExpExec_Some in He as (Hp & _ & _).
      f_equal. apply IH; destruct (Nat.eqb_spec l 0); lia.
Qed.

Lemma resultsFrom_unfold i :
  resultsFrom m S i =
  match regExpExec m S i with
  | None => []
  | Some (p, len) =>
      (p, len) :: resultsFrom m S (if len =? 0 then p + 1 else p + len)
  end.
Proof.
  unfold resultsFrom at 1.
  destruct (length S + 1 - i) as [|f] eqn:Hf; simpl.
  - unfold regExpExec. rewrite Hf. reflexivity.
  - destruct (regExpExec m S i) as [[p l]|] eqn:He; [|reflexivity].
    apply regExpExec_Some in He as (Hp & _ & _).
    f_equal. unfold resultsFrom.
    apply globalResults_fuel; destruct (Nat.eqb_spec l 0); lia.
Qed.

Lemma jsMatch_length :
  length (default [] (jsMatch m S)) = length (resultsFrom m S 0).
Proof.
  unfold jsMatch. destruct (resultsFrom m S 0); [reflexivity|].
  simpl. rewrite length_map. reflexivity.
Qed.

End RegExpFacts.

(** ** The fence count *)

Lemma isWordChar_not_backtick c : isWordChar c = true -> Ascii.eqb c backtick = false.
Proof.
  intros H. destruct (Ascii.eqb c backtick) eqn:E; [|reflexivity].
  apply Ascii.eqb_eq in E. subst c. discriminate H.
Qed.

Lemma countFences_cons_other c s :
  Ascii.eqb c backtick = false -> countFences (c :: s) = countFences s.
Proof.
  intros H. destruct s as [|c2 [|c3 rest]]; simpl; try reflexivity.
  rewrite H. reflexivity.
Qed.

Lemma starOptWord_le s : starOptWord s <= length s.
Proof.
  induction s as [|c s IH]; simpl; [lia|]. destruct (isWordChar c); lia.
Qed.

Lemma countFences_drop_word s :
  countFences (drop (starOptWord s) s) = countFences s.
Proof.
  induction s as [|c s IH]; simpl starOptWord; [reflexivity|].
  destruct (isWordChar c) eqn:Hw; [|reflexivity].
  simpl drop. rewrite IH. symmetry. apply countFences_cons_other.
  apply isWordChar_not_backtick. assumption.
Qed.

Lemma drop_tail_eq {A} (l : list A) i x r k :
  drop i l = x :: r -> drop (i + Datatypes.S k) l = drop k r.
Proof.
  intros H. rewrite <- drop_drop, H. reflexivity.
Qed.

Lemma codeBlocks_results_count S n i :
  length S - i <= n -> i <= length S ->
  length (resultsFrom codeBlocksMdSymbolRegex S i) = countFences (drop i S).
Proof.
  revert i. induction n as [|n IH]; intros i Hn Hi.
  - assert (i = length S) as -> by lia.
    rewrite drop_all, resultsFrom_unfold.
    replace (regExpExec codeBlocksMdSymbolRegex S (length S)) with (@None (nat * nat)).
    + reflexivity.
    + symmetry. apply regExpExec_None. intros j Hj.
      unfold codeBlocksMdSymbolRegex. rewrite drop_ge by lia. reflexivity.
  - destruct (drop i S) as [|c1 r1] eqn:Hd.
    + assert (length (drop i S) = 0) as Hl by (rewrite Hd; reflexivity).
      rewrite length_drop in Hl. rewrite <- Hd. apply IH; lia.
    + assert (length (drop i S) = Datatypes.S (length r1)) as Hl
        by (rewrite Hd; reflexivity).
      rewrite length_drop in Hl.
      pose proof (drop_tail_eq S i c1 r1 0 Hd) as Hd1. rewrite drop_0 in Hd1.
      assert (Hskip : codeBlocksMdSymbolRegex S i = None ->
                      countFences (c1 :: r1) = countFences r1 ->
                      length (resultsFrom codeBlocksMdSymbolRegex S i)
                      = countFences (c1 :: r1)).
      { intros Hm Hc. rewrite resultsFrom_unfold, regExpExec_skip by (lia || assumption).
        rewrite <- resultsFrom_unfold, IH by lia.
        rewrite Hd1, Hc. reflexivity. }
      destruct r1 as [|c2 [|c3 rest]].
      * apply Hskip; [|reflexivity]. unfold codeBlocksMdSymbolRegex. rewrite Hd. reflexivity.
      * apply Hskip; [|reflexivity]. unfold codeBlocksMdSymbolRegex. rewrite Hd. reflexivity.
      * destruct (Ascii.eqb c1 backtick && Ascii.eqb c2 backtick && Ascii.eqb c3 backtick)
          eqn:Hb.
        -- assert (Hm : codeBlocksMdSymbolRegex S i = Some (3 + starOptWord rest)).
           { unfold codeBlocksMdSymbolRegex. rewrite Hd, Hb. reflexivity. }
           pose proof (starOptWord_le rest) as Hle. simpl in Hl.
           rewrite resultsFrom_unfold.
           rewrite (regExpExec_found _ _ i i _ (conj (le_n i) Hi) (fun j Hj => ltac:(lia)) Hm).
           rewrite Nat.min_l by lia. simpl Nat.eqb. cbn iota.
           simpl length. rewrite IH by lia.
           replace (i + (3 + starOptWord rest))
             with (i + Datatypes.S (2 + starOptWord rest)) by lia.
           rewrite (drop_tail_eq S i _ _ _ Hd). simpl drop.
           rewrite countFences_drop_word. simpl. rewrite Hb. reflexivity.
        -- apply Hskip.
           ++ unfold codeBlocksMdSymbolRegex. rewrite Hd, Hb. reflexivity.
           ++ simpl. rewrite Hb. reflexivity.
Qed.

Lemma needsContinuation_odd s : needsContinuation s = Nat.odd (countFences s).
Proof.
  unfold needsContinuation.
  rewrite jsMatch_length, (codeBlocks_results_count s (length s) 0) by lia.
  rewrite drop_0.
  destruct (Nat.odd (countFences s)) eqn:Ho.
  - apply Nat.odd_spec in Ho as [k ->]. apply Nat.eqb_eq.
    rewrite Nat.add_comm, Nat.mul_comm. apply Nat.Div0.mod_add.
  - apply Nat.eqb_neq. intros Hm.
    assert (Nat.odd (countFences s) = true) as Ho'; [|congruence].
    apply Nat.odd_spec. exists (countFences s / 2).
    rewrite (Nat.div_mod_eq (countFences s) 2) at 1. lia.
Qed.

(** C1. For every text, the test made on a reply (sendMessage, lines
    122-125) holds exactly when the text has an odd number of fence
    markers: it holds for a text with one marker, it fails for a text with
    none or with two. *)
Theorem needsContinuation_iff_odd_fences (s : list ascii) :
  (needsContinuation s = true <-> Nat.Odd (countFences s)) /\
  (countFences s = 1 -> needsContinuation s = true) /\
  (countFences s = 0 \/ countFences s = 2 -> needsContinuation s = false).
Proof.
  rewrite needsContinuation_odd. split; [apply Nat.odd_spec|].
  split; [intros ->; reflexivity|intros [-> | ->]; reflexivity].
Qed.

(** A reply that opens a code block and stops. *)
Lemma needsContinuation_iff_odd_fences_witness :
  countFences (txt "```ts it('f')") = 1 /\
  needsContinuation (txt "```ts it('f')") = true.
Proof.
  split; [reflexivity|].
  apply (proj1 (proj2 (needsContinuation_iff_odd_fences (txt "```ts it('f')")))).
  reflexivity.
Defined.

(** ** What a global replace does to a text *)

Section Redaction.
Variable m : Matcher.
Variable S : list ascii.

Lemma substring_length p len :
  length (substring S p len) = Nat.min len (length S - p).
Proof. unfold substring. rewrite length_take, length_drop. reflexivity. Qed.

Lemma drop_split next p len :
  next <= p ->
  drop next S =
  substring S next (p - next) ++ substring S p len
    ++ drop (p + length (substring S p len)) S.
Proof.
  intros Hle. unfold substring at 1 2.
  rewrite <- (take_drop (p - next) (drop next S)) at 1. f_equal.
  rewrite drop_drop. replace (next + (p - next)) with p by lia.
  rewrite <- (take_drop len (drop p S)) at 1. f_equal.
  rewrite drop_drop, substring_length.
  destruct (Nat.le_gt_cases len (length S - p)) as [H|H].
  - rewrite Nat.min_l by assumption. reflexivity.
  - rewrite Nat.min_r by lia. rewrite !drop_ge by lia. reflexivity.
Qed.

Lemma splice_Scanned replacement n i next :
  length S + 1 - i <= n -> next <= i ->
  exists pieces tail,
    Scanned m S i next pieces tail /\
    drop next S = sourceOf pieces tail /\
    splice S (resultsFrom m S i) replacement next
    = redactedOf replacement pieces tail.
Proof.
  revert i next. induction n as [|n IH]; intros i next Hn Hnext;
    rewrite resultsFrom_unfold;
    destruct (regExpExec m S i) as [[p l]|] eqn:He;
    try (exists [], (drop next S); split;
         [constructor; apply regExpExec_None; assumption|split; reflexivity]).
  - apply regExpExec_Some in He as (Hp & _). lia.
  - apply regExpExec_Some in He as (Hp & Hnone & len & Hm & ->).
    rewrite <- substring_length.
    destruct (IH (if length (substring S p len) =? 0 then p + 1
                  else p + length (substring S p len))
                 (p + length (substring S p len)))
      as (pieces & tail & Hsc & Hsrc & Hspl).
    { destruct (Nat.eqb_spec (length (substring S p len)) 0); lia. }
    { destruct (Nat.eqb_spec (length (substring S p len)) 0); lia. }
    exists ((substring S next (p - next), substring S p len) :: pieces), tail.
    split; [|split].
    + econstructor; eassumption.
    + unfold sourceOf. simpl. rewrite <- !app_assoc.
      fold (sourceOf pieces tail). rewrite <- Hsrc.
      apply drop_split. lia.
    + simpl. replace (next <=? p) with true by (symmetry; apply Nat.leb_le; lia).
      rewrite Hspl. unfold redactedOf. simpl. rewrite <- !app_assoc. reflexivity.
Qed.

(** The text is the pieces in their order, the result is the same pieces
    with every match replaced. *)
Lemma jsReplace_Scanned replacement :
  exists pieces tail,
    Scanned m S 0 0 pieces tail /\
    S = sourceOf pieces tail /\
    jsReplace m S replacement = redactedOf replacement pieces tail.
Proof.
  destruct (splice_Scanned replacement (length S + 1) 0 0) as
    (pieces & tail & Hsc & Hsrc & Hspl); [lia|lia|].
  rewrite drop_0 in Hsrc. exists pieces, tail. auto.
Qed.

Lemma jsReplace_no_match replacement :
  (forall j, j <= length S -> m S j = None) ->
  jsReplace m S replacement = S.
Proof.
  intros H. unfold jsReplace. rewrite resultsFrom_unfold.
  replace (regExpExec m S 0) with (@None (nat * nat)).
  - simpl. apply drop_0.
  - symmetry. apply regExpExec_None. intros j Hj. apply H. lia.
Qed.

End Redaction.

(** ** Objects *)

Lemma get_insert_eq (o : gmap string jsval) k v : get (<[k := v]> o) k = v.
Proof. unfold get. rewrite lookup_insert_eq. reflexivity. Qed.

Lemma get_insert_ne (o : gmap string jsval) k k' v :
  k <> k' -> get (<[k := v]> o) k' = get o k'.
Proof. intros H. unfold get. rewrite lookup_insert_ne by assumption. reflexivity. Qed.

Lemma last_cons_default {A} (x : A) (l : list A) (d : A) :
  List.last (x :: l) d = List.last l x.
Proof.
  revert x d. induction l as [|y l IH]; intros x d; [reflexivity|].
  change (List.last (y :: l) d = List.last (y :: l) x).
  rewrite (IH y d), (IH y x). reflexivity.
Qed.

(** ** How sendMessage runs *)

Section SendMessageFacts.

Variable E : Env.

Lemma textOf_Rejected (message : gmap string jsval) e :
  textOf message = Rejected e -> e = TypeError.
Proof.
  unfold textOf. destruct (get message "text"); congruence.
Qed.

Lemma sendMessage_first prompt w :
  sendMessage E prompt None w =
  match securityPrompt E prompt with
  | Rejected e => (Rejected e, w)
  | Resolved sp =>
      apiSendMessage E sp None w
  end.
Proof.
  unfold sendMessage, bind, await. destruct (securityPrompt E prompt); reflexivity.
Qed.

Lemma sendMessage_chained prompt prev w :
  exists sent,
    SendChained E prompt prev w sent (fst (sendMessage E prompt (Some prev) w))
    /\ requests (snd (sendMessage E prompt (Some prev) w)) = requests w ++ sent
    /\ parentMessage (snd (sendMessage E prompt (Some prev) w)) = parentMessage w.
Proof.
  unfold sendMessage, bind, await.
  destruct (securityPrompt E prompt) as [sp|e] eqn:Hsp; simpl.
  2:{ exists []. rewrite app_nil_r. eauto using SendChained. }
  unfold oraStart, needPrintMessage, isReviewPassed, userOptions_huskyGPTType,
    bind, await.
  destruct (huskyGPTType (options E)) as [t|] eqn:Ht; simpl.
  2:{ exists []. rewrite app_nil_r. eauto using SendChained. }
  set (w1 := snd ((if match t with OtherType _ => false | _ => true end
                   then emit SpinnerStart else ret tt) w)).
  assert (Hw1 : requests w1 = requests w /\ parentMessage w1 = parentMessage w
                /\ controllers w1 = controllers w).
  { subst w1. destruct t; simpl; auto. }
  destruct Hw1 as (Hr1 & Hp1 & Hc1).
  replace ((if match t with OtherType _ => false | _ => true end
            then emit SpinnerStart else ret tt) w) with (Resolved tt, w1)
    by (subst w1; destruct t; reflexivity).
  simpl. rewrite Hr1, Hc1.
  fold (firstRequest sp prev w).
  destruct (api E (requests w) (firstRequest sp prev w)) as [res|e] eqn:Hapi; simpl.
  2:{ exists [firstRequest sp prev w]. eauto using SendChained. }
  destruct (textOf res) as [text|e] eqn:Htext; simpl.
  2:{ exists [firstRequest sp prev w].
      pose proof (textOf_Rejected _ _ Htext) as ->. eauto using SendChained. }
  destruct (needsContinuation text) eqn:Hneeds; simpl.
  - fold (continueRequest prev w res).
    destruct (api E (requests w ++ [firstRequest sp prev w])
                (continueRequest prev w res)) as [next|e] eqn:Hnext; simpl.
    + exists [firstRequest sp prev w; continueRequest prev w res].
      split; [|split].
      * destruct t; simpl; eauto using SendChained;
          destruct (jsTest _ _); simpl; eauto using SendChained.
      * destruct t; simpl; rewrite <- ?app_assoc; try reflexivity;
          destruct (jsTest _ _); simpl; rewrite <- ?app_assoc; reflexivity.
      * destruct t; simpl; try assumption; destruct (jsTest _ _); assumption.
    + exists [firstRequest sp prev w; continueRequest prev w res].
      split; [eauto using SendChained|]. split; [|assumption].
      rewrite <- app_assoc. reflexivity.
  - exists [firstRequest sp prev w]. split; [|split].
    + destruct t; simpl; eauto using SendChained;
        destruct (jsTest _ _); simpl; eauto using SendChained.
    + destruct t; simpl; try reflexivity; destruct (jsTest _ _); reflexivity.
    + destruct t; simpl; try assumption; destruct (jsTest _ _); assumption.
Qed.

Lemma sendMessage_chained_requests prompt prev w o w' :
  sendMessage E prompt (Some prev) w = (o, w') ->
  exists sent, SendChained E prompt prev w sent o /\
               requests w' = requests w ++ sent /\
               parentMessage w' = parentMessage w.
Proof.
  intros H. destruct (sendMessage_chained prompt prev w) as (sent & Hc & Hr & Hp).
  rewrite H in *. simpl in *. eauto.
Qed.

End SendMessageFacts.

(** ** How the loop of sendFileResult runs *)

Section LoopFacts.
Variable E : Env.

Lemma Pass_length message prompts w replies w' :
  Pass E message prompts w replies w' -> length replies = length prompts.
Proof. induction 1; simpl; congruence. Qed.

Lemma forCodePrompts_step prompt prompts message messageArray w :
  forCodePrompts E (prompt :: prompts) message messageArray w =
  match sendMessage E prompt (Some (parentContextOf message)) w with
  | (Resolved reply, w1) =>
      forCodePrompts E prompts reply (messageArray ++ [get reply "text"])
        (withParent reply w1)
  | (Rejected e, w1) => (Rejected e, w1)
  end.
Proof.
  simpl. unfold bind.
  destruct (sendMessage E prompt (Some (parentContextOf message)) w) as [[reply|e] w1];
    reflexivity.
Qed.

Lemma forCodePrompts_Resolved prompts message messageArray w out w' :
  forCodePrompts E prompts message messageArray w = (Resolved out, w') <->
  exists replies,
    Pass E message prompts w replies w' /\ out = messageArray ++ textsOf replies.
Proof.
  revert message messageArray w.
  induction prompts as [|prompt prompts IH]; intros message messageArray w.
  - simpl. unfold ret. split.
    + intros [= <- <-]. exists []. split; [constructor|]. simpl.
      rewrite app_nil_r. reflexivity.
    + intros (replies & HP & ->). inversion HP; subst. simpl.
      rewrite app_nil_r. reflexivity.
  - rewrite forCodePrompts_step. split.
    + destruct (sendMessage E prompt (Some (parentContextOf message)) w)
        as [[reply|e] w1] eqn:Hs; [|discriminate].
      intros H. apply IH in H as (replies & HP & ->).
      exists (reply :: replies). split; [econstructor; eassumption|].
      simpl. rewrite <- app_assoc. reflexivity.
    + intros (replies & HP & ->). inversion HP; subst.
      match goal with H : sendMessage _ _ _ _ = _ |- _ => rewrite H end.
      apply IH. eexists. split; [eassumption|].
      simpl. rewrite <- app_assoc. reflexivity.
Qed.

(** The loop stops at the first prompt whose sending fails. *)
Lemma forCodePrompts_Rejected before prompt after message messageArray w
      replies w1 e w2 :
  Pass E message before w replies w1 ->
  sendMessage E prompt (Some (parentContextOf (List.last replies message))) w1
    = (Rejected e, w2) ->
  forCodePrompts E (before ++ prompt :: after) message messageArray w
    = (Rejected e, w2).
Proof.
  intros HP. revert messageArray.
  induction HP as [message w|message p ps w reply w1 replies w3 Hs HP IH];
    intros messageArray Hfail.
  - simpl app. rewrite forCodePrompts_step. simpl in Hfail. rewrite Hfail.
    reflexivity.
  - simpl app. rewrite forCodePrompts_step, Hs. apply IH.
    rewrite last_cons_default in Hfail. assumption.
Qed.

End LoopFacts.

(** ** The requests of a pass *)

Section ChainFacts.
Variable E : Env.

Lemma parentOf_firstRequest sp message w :
  parentOf (firstRequest sp (parentContextOf message) w) = identifiers message.
Proof.
  unfold parentOf, firstRequest, sendOptionsOf, parentContextOf, identifiers.
  simpl. rewrite !get_insert_ne by done.
  rewrite get_insert_eq, get_insert_ne by done.
  rewrite !get_insert_ne by done. rewrite !get_insert_eq. reflexivity.
Qed.

Lemma parentOf_continueRequest prev w res :
  parentOf (continueRequest prev w res) = identifiers res.
Proof.
  unfold parentOf, continueRequest, continueOptionsOf, identifiers.
  simpl. rewrite get_insert_eq, get_insert_ne by done.
  rewrite get_insert_eq. reflexivity.
Qed.

Lemma SendChained_Resolved prompt message w sent reply :
  SendChained E prompt (parentContextOf message) w sent (Resolved reply) ->
  exists first res continuation,
    sent = first :: continuation /\
    securityPrompt E prompt = Resolved (reqText first) /\
    parentOf first = identifiers message /\
    api E (requests w) first = Resolved res /\
    Continued E (requests w ++ [first]) res continuation reply.
Proof.
  inversion 1; subst.
  - eexists _, _, []. split; [reflexivity|]. split; [eassumption|].
    split; [apply parentOf_firstRequest|]. split; [eassumption|].
    econstructor; eassumption.
  - eexists _, _, [_]. split; [reflexivity|]. split; [eassumption|].
    split; [apply parentOf_firstRequest|]. split; [eassumption|].
    econstructor; try eassumption; [reflexivity|apply parentOf_continueRequest].
Qed.

Lemma Pass_Chained cursor prompts w replies w' :
  Pass E cursor prompts w replies w' ->
  exists sent,
    requests w' = requests w ++ sent /\
    Chained E (requests w) cursor prompts sent replies /\
    parentMessage w' =
      match replies with
      | [] => parentMessage w
      | _ => Some (List.last replies cursor)
      end.
Proof.
  induction 1 as [message w|message p ps w reply w1 replies w2 Hs HP IH].
  - exists []. rewrite app_nil_r. repeat split. constructor.
  - destruct IH as (sent & Hreq & Hch & Hpm).
    apply sendMessage_chained_requests in Hs as (sent1 & Hsc & Hr1 & _).
    apply SendChained_Resolved in Hsc
      as (first & res & cont & -> & Hsp & Hpar & Hapi & Hcont).
    exists ((first :: cont) ++ sent). split; [|split].
    + rewrite Hreq. simpl requests. rewrite Hr1, <- app_assoc. reflexivity.
    + simpl requests in Hch. rewrite Hr1 in Hch.
      simpl. econstructor; eassumption.
    + rewrite Hpm, last_cons_default. destruct replies as [|r rs]; [reflexivity|].
      rewrite last_cons_default. reflexivity.
Qed.

Lemma Continued_length history res continuation reply :
  Continued E history res continuation reply -> length continuation <= 1.
Proof. inversion 1; simpl; lia. Qed.

Lemma Chained_length history cursor prompts sent replies :
  Chained E history cursor prompts sent replies ->
  length replies = length prompts /\
  length prompts <= length sent <= 2 * length prompts.
Proof.
  induction 1 as [|? ? ? ? ? ? continuation ? ? ? _ _ _ Hc _ IH]; simpl; [lia|].
  apply Continued_length in Hc. rewrite length_app. lia.
Qed.

Lemma Continued_text history res continuation reply :
  Continued E history res continuation reply ->
  exists text, get reply "text" = JString text.
Proof.
  inversion 1; subst.
  - unfold textOf in *. destruct (get reply "text"); try discriminate. eauto.
  - unfold mergeContinuation. rewrite get_insert_eq. eauto.
Qed.

(** What sendFileResult does once the prompts are there. *)
Lemma sendFileResult_Resolved fileResult systemPrompt prompt prompts w out w' :
  promptArrayOf E fileResult = Resolved (systemPrompt :: prompt :: prompts) ->
  sendFileResult E fileResult w = (Resolved out, w') <->
  exists cursor w1 replies,
    Bootstrapped E systemPrompt w cursor w1 /\
    Pass E cursor (prompt :: prompts) w1 replies w' /\
    out = textsOf replies.
Proof.
  intros Hg. unfold sendFileResult, bind, await, getParentMessage. rewrite Hg.
  destruct (parentMessage w) as [message|] eqn:Hpm.
  - unfold ret. rewrite forCodePrompts_Resolved. split.
    + intros (replies & HP & ->). exists message, w, replies.
      split; [constructor; assumption|]. split; [assumption|reflexivity].
    + intros (cursor & w1 & replies & HB & HP & ->).
      inversion HB; subst; [|congruence].
      assert (cursor = message) as -> by congruence. eauto.
  - destruct (sendMessage E systemPrompt None w) as [[message|e] w1] eqn:Hs.
    + rewrite forCodePrompts_Resolved. split.
      * intros (replies & HP & ->). exists message, w1, replies.
        split; [apply Boot_sent; assumption|]. split; [assumption|reflexivity].
      * intros (cursor & w2 & replies & HB & HP & ->).
        inversion HB; subst; [congruence|].
        assert (cursor = message /\ w2 = w1) as [-> ->] by (split; congruence).
        eauto.
    + split; [discriminate|].
      intros (cursor & w2 & replies & HB & HP & ->).
      inversion HB; subst; congruence.
Qed.

End ChainFacts.

(** ** How run ends *)

Section RunFacts.
Variable E : Env.

Lemma promptArrayOf_type fileResult prompts :
  promptArrayOf E fileResult = Resolved prompts ->
  exists t, huskyGPTType (options E) = Some t.
Proof.
  unfold promptArrayOf, generatePrompt, userOptions_huskyGPTType.
  destruct (huskyGPTType (options E)); [eauto|discriminate].
Qed.

Lemma started_requests w :
  requests (started E w) = requests w /\
  parentMessage (started E w) = parentMessage w.
Proof.
  unfold started, oraStart, needPrintMessage, userOptions_huskyGPTType, bind, await.
  destruct (huskyGPTType (options E)) as [[]|]; simpl; auto.
Qed.

(** run never rejects once the type of the run is set: it resolves to what
    sendFileResult resolved to, or to the failure message. *)
Lemma run_outcome t fileResult w o w1 :
  huskyGPTType (options E) = Some t ->
  sendFileResult E fileResult (started E w) = (o, w1) ->
  exists w',
    run E fileResult w =
      (Resolved (match o with
                 | Resolved res => res
                 | Rejected _ => [failureMessage]
                 end), w') /\
    requests w' = requests w1 /\ parentMessage w' = parentMessage w1.
Proof.
  intros Ht Hs. unfold run, bind at 1 2, await at 1, userOptions_huskyGPTType at 1.
  rewrite Ht. unfold started in Hs.
  destruct (oraStart E w) as [[[]|e] w0] eqn:Ho.
  2:{ exfalso. revert Ho.
      unfold oraStart, needPrintMessage, userOptions_huskyGPTType, bind, await.
      rewrite Ht. destruct t; discriminate. }
  simpl in Hs. unfold finally, catch, bind, await, userOptions_huskyGPTType.
  rewrite Hs, Ht. destruct o as [res|e]; simpl; eexists; repeat split.
Qed.

Lemma run_unset fileResult w :
  huskyGPTType (options E) = None ->
  run E fileResult w = (Rejected HuskyGPTTypeNotSet, w).
Proof.
  intros Ht. unfold run, bind, await, userOptions_huskyGPTType. rewrite Ht.
  reflexivity.
Qed.

Lemma sendFileResult_Rejected_early fileResult e w :
  promptArrayOf E fileResult = Rejected e ->
  sendFileResult E fileResult w = (Rejected e, w).
Proof.
  intros Hg. unfold sendFileResult, bind, await. rewrite Hg. reflexivity.
Qed.

Lemma sendFileResult_Rejected fileResult systemPrompt before prompt after
      w cursor w1 replies w2 e w3 :
  promptArrayOf E fileResult = Resolved (systemPrompt :: before ++ prompt :: after) ->
  Bootstrapped E systemPrompt w cursor w1 ->
  Pass E cursor before w1 replies w2 ->
  sendMessage E prompt (Some (parentContextOf (List.last replies cursor))) w2
    = (Rejected e, w3) ->
  sendFileResult E fileResult w = (Rejected e, w3).
Proof.
  intros Hg HB HP Hfail.
  pose proof (forCodePrompts_Rejected E before prompt after cursor [] w1
                replies w2 e w3 HP Hfail) as Hloop.
  unfold sendFileResult, bind, await, getParentMessage. rewrite Hg.
  destruct (before ++ prompt :: after) as [|p ps] eqn:Hcodes;
    [destruct before; discriminate|].
  inversion HB; subst.
  - match goal with H : parentMessage _ = Some _ |- _ => rewrite H end.
    unfold ret. assumption.
  - match goal with H : parentMessage _ = None |- _ => rewrite H end.
    match goal with H : sendMessage _ _ None _ = _ |- _ => rewrite H end.
    assumption.
Qed.

End RunFacts.

(** ** The properties *)

Section Claims.
Variable E : Env.

Lemma mergeContinuation_text res next A B :
  res !! "text" = Some (JString A) -> next !! "text" = Some (JString B) ->
  get (mergeContinuation res next) "text" = JString (A ++ B).
Proof.
  intros HA HB. unfold mergeContinuation. rewrite get_insert_eq.
  unfold get. rewrite HA, HB. reflexivity.
Qed.

Lemma mergeContinuation_next res next k :
  k <> "text" -> is_Some (next !! k) ->
  get (mergeContinuation res next) k = get next k.
Proof.
  intros Hk [v Hv]. unfold mergeContinuation, spread.
  rewrite get_insert_ne by congruence. unfold get.
  rewrite (lookup_union_Some_l next res k v Hv), Hv. reflexivity.
Qed.

(** A property the reply to "continue" does not own stays as the first
    reply had it. *)
Lemma mergeContinuation_inherits res next k :
  k <> "text" -> next !! k = None ->
  get (mergeContinuation res next) k = get res k.
Proof.
  intros Hk Hnone. unfold mergeContinuation, spread.
  rewrite get_insert_ne by congruence. unfold get.
  rewrite (lookup_union_r next res k Hnone). reflexivity.
Qed.

(** C2. When the reply to a prompt has the text A with an odd number of
    fence markers and the reply to "continue" has the text B, sendMessage
    returns a message whose text is A followed by B and whose id and
    conversationId are those of the reply to "continue". *)
Theorem sendMessage_merges_continuation
    prompt prev w sp t res A next B :
  securityPrompt E prompt = Resolved sp ->
  huskyGPTType (options E) = Some t ->
  api E (requests w) (firstRequest sp prev w) = Resolved res ->
  res !! "text" = Some (JString A) ->
  needsContinuation A = true ->
  api E (requests w ++ [firstRequest sp prev w]) (continueRequest prev w res)
    = Resolved next ->
  next !! "text" = Some (JString B) ->
  is_Some (next !! "id") ->
  is_Some (next !! "conversationId") ->
  exists merged w',
    sendMessage E prompt (Some prev) w = (Resolved merged, w') /\
    get merged "text" = JString (A ++ B) /\
    get merged "id" = get next "id" /\
    get merged "conversationId" = get next "conversationId".
Proof.
  intros Hsp Ht Hres HA Hodd Hnext HB Hid Hconv.
  assert (Htext : textOf res = Resolved A).
  { unfold textOf, get. rewrite HA. reflexivity. }
  destruct (sendMessage E prompt (Some prev) w) as [o w'] eqn:Hs.
  apply sendMessage_chained_requests in Hs as (sent & Hc & _ & _).
  exists (mergeContinuation res next), w'.
  split; [|split; [|split]].
  - f_equal. inversion Hc; subst; congruence.
  - apply mergeContinuation_text; assumption.
  - apply mergeContinuation_next; [discriminate|assumption].
  - apply mergeContinuation_next; [discriminate|assumption].
Qed.

(** C4. When the prompt builder yields the task prompt alone,
    sendFileResult resolves to the empty list in an unchanged world, and
    run resolves to the empty list without a request. *)
Theorem sendFileResult_no_code_prompts fileResult systemPrompt w :
  promptArrayOf E fileResult = Resolved [systemPrompt] ->
  sendFileResult E fileResult w = (Resolved [], w) /\
  exists w', run E fileResult w = (Resolved [], w') /\ requests w' = requests w.
Proof.
  intros Hg.
  assert (Hs : forall w0, sendFileResult E fileResult w0 = (Resolved [], w0)).
  { intros w0. unfold sendFileResult, bind, await. rewrite Hg. reflexivity. }
  split; [apply Hs|].
  destruct (promptArrayOf_type E _ _ Hg) as [t Ht].
  destruct (run_outcome E t fileResult w _ _ Ht (Hs (started E w)))
    as (w' & Hr & Hreq & _).
  exists w'. split; [assumption|].
  rewrite Hreq. apply started_requests.
Qed.

(** C5. When the prompts before a code-unit prompt were sent and answered
    and the sending of that prompt fails, sendFileResult rejects in the
    world the failure left, so that nothing is sent for the prompts after
    it and no reply text is returned, and run resolves to the failure
    message alone. *)
Theorem run_failure_isolated
    fileResult systemPrompt before prompt after w cursor w1 replies w2 e w3 :
  promptArrayOf E fileResult
    = Resolved (systemPrompt :: before ++ prompt :: after) ->
  Bootstrapped E systemPrompt (started E w) cursor w1 ->
  Pass E cursor before w1 replies w2 ->
  sendMessage E prompt (Some (parentContextOf (List.last replies cursor))) w2
    = (Rejected e, w3) ->
  sendFileResult E fileResult (started E w) = (Rejected e, w3) /\
  exists w4,
    run E fileResult w = (Resolved [failureMessage], w4) /\
    requests w4 = requests w3.
Proof.
  intros Hg HB HP Hfail.
  pose proof (sendFileResult_Rejected E _ _ _ _ _ _ _ _ _ _ _ _ Hg HB HP Hfail) as Hs.
  split; [assumption|].
  destruct (promptArrayOf_type E _ _ Hg) as [t Ht].
  destruct (run_outcome E t fileResult w _ _ Ht Hs) as (w4 & Hr & Hreq & _).
  exists w4. split; assumption.
Qed.

(** C8. One call of sendMessage sends nothing, one request, or one request
    and one "continue"; when the text it returns for a chained prompt
    still has an odd number of fence markers, one "continue" was sent and
    no second one. *)
Theorem sendMessage_continues_once prompt prev w :
  exists sent,
    requests (snd (sendMessage E prompt prev w)) = requests w ++ sent /\
    (sent = [] \/ (exists first, sent = [first]) \/
     (exists first c, sent = [first; c] /\ reqText c = continueMessage)) /\
    (forall context merged text,
        prev = Some context ->
        fst (sendMessage E prompt prev w) = Resolved merged ->
        textOf merged = Resolved text ->
        needsContinuation text = true ->
        exists first c, sent = [first; c] /\ reqText c = continueMessage).
Proof.
  destruct prev as [prev|].
  - destruct (sendMessage_chained E prompt prev w) as (sent & Hc & Hreq & _).
    exists sent. split; [assumption|]. split.
    + inversion Hc; subst; eauto 6.
    + intros context merged text _ Hm Htext Hodd. rewrite Hm in Hc.
      inversion Hc; subst; [congruence|eauto].
  - rewrite sendMessage_first.
    destruct (securityPrompt E prompt) as [sp|e].
    + exists [ {| reqText := sp; reqOptions := None |} ]. split; [reflexivity|].
      split; [eauto|]. intros; discriminate.
    + exists []. simpl. rewrite app_nil_r. split; [reflexivity|].
      split; [eauto|]. intros; discriminate.
Qed.

Lemma Bootstrapped_requests systemPrompt w cursor w1 :
  Bootstrapped E systemPrompt w cursor w1 ->
  exists boot,
    requests w1 = requests w ++ boot /\
    match parentMessage w with
    | Some message => boot = [] /\ cursor = message
    | None =>
        exists sp,
          securityPrompt E systemPrompt = Resolved sp /\
          boot = [ {| reqText := sp; reqOptions := None |} ] /\
          api E (requests w) {| reqText := sp; reqOptions := None |}
            = Resolved cursor
    end.
Proof.
  intros [message Hpm|message w2 Hpm Hs].
  - exists []. rewrite app_nil_r, Hpm. auto.
  - rewrite sendMessage_first in Hs. rewrite Hpm.
    destruct (securityPrompt E systemPrompt) as [sp|e]; [|discriminate].
    unfold apiSendMessage in Hs. injection Hs as Hapi <-.
    exists [ {| reqText := sp; reqOptions := None |} ]. simpl. eauto.
Qed.

(** C3, as the program has it. A pass over N >= 1 code-unit prompts that
    succeeds sends, after the request of the task prompt when no message
    was retained, the requests of the prompts in their order, each followed
    by one "continue" when the reply of the endpoint has an odd number of
    fence markers: between N and 2N requests. The reply of a prompt is
    what the endpoint answered to its request, merged with what it
    answered to the "continue" if there was one. The request of each
    prompt carries the identifiers of the reply of the prompt before it,
    and the first those of the message retained or of what the endpoint
    answered to the task prompt; the texts returned are those of the
    replies, and the message retained at the end is the last reply. *)
Theorem sendFileResult_chains
    fileResult systemPrompt prompt prompts w out w' :
  promptArrayOf E fileResult = Resolved (systemPrompt :: prompt :: prompts) ->
  sendFileResult E fileResult w = (Resolved out, w') ->
  exists boot cursor sent replies,
    requests w' = requests w ++ boot ++ sent /\
    match parentMessage w with
    | Some message => boot = [] /\ cursor = message
    | None =>
        exists sp,
          securityPrompt E systemPrompt = Resolved sp /\
          boot = [ {| reqText := sp; reqOptions := None |} ] /\
          api E (requests w) {| reqText := sp; reqOptions := None |}
            = Resolved cursor
    end /\
    Chained E (requests w ++ boot) cursor (prompt :: prompts) sent replies /\
    out = textsOf replies /\
    length (prompt :: prompts) <= length sent <= 2 * length (prompt :: prompts) /\
    parentMessage w' = Some (List.last replies cursor).
Proof.
  intros Hg Hs.
  apply (sendFileResult_Resolved E _ _ _ _ _ _ _ Hg) in Hs
    as (cursor & w1 & replies & HB & HP & Hout).
  apply Bootstrapped_requests in HB as (boot & Hboot & Hcursor).
  apply Pass_Chained in HP as (sent & Hreq & Hch & Hpm).
  rewrite Hboot in Hch.
  exists boot, cursor, sent, replies.
  split; [rewrite Hreq, Hboot, app_assoc; reflexivity|].
  split; [assumption|]. split; [assumption|]. split; [assumption|].
  pose proof (Chained_length E _ _ _ _ _ Hch) as [Hlen Hbounds].
  split; [assumption|].
  rewrite Hpm. destruct replies; [discriminate Hlen|reflexivity].
Qed.

(** C10. A pass that succeeds returns as many texts as there are code-unit
    prompts: the texts, in order, of the replies sendMessage returned for
    these prompts, each a string; the reply to the task prompt is the
    message the first prompt chains on and is not among them. *)
Theorem sendFileResult_one_text_per_prompt
    fileResult systemPrompt codePrompts w out w' :
  promptArrayOf E fileResult = Resolved (systemPrompt :: codePrompts) ->
  sendFileResult E fileResult w = (Resolved out, w') ->
  length out = length codePrompts /\
  Forall (fun text => exists s, text = JString s) out /\
  (codePrompts = [] \/
   exists cursor w1 replies,
     Bootstrapped E systemPrompt w cursor w1 /\
     Pass E cursor codePrompts w1 replies w' /\
     out = textsOf replies).
Proof.
  intros Hg Hs. destruct codePrompts as [|prompt prompts].
  - unfold sendFileResult, bind, await in Hs. rewrite Hg in Hs.
    injection Hs as <- <-.
    split; [reflexivity|]. split; [constructor|]. left. reflexivity.
  - apply (sendFileResult_Resolved E _ _ _ _ _ _ _ Hg) in Hs
      as (cursor & w1 & replies & HB & HP & ->).
    split; [|split].
    + unfold textsOf. rewrite length_map. eapply Pass_length. eassumption.
    + apply Pass_Chained in HP as (sent & _ & Hch & _).
      clear HB Hg. induction Hch as [|? ? ? ? ? ? ? ? ? ? _ _ _ Hc _ IH];
        simpl; constructor; [|assumption].
      eapply Continued_text. eassumption.
    + right. exists cursor, w1, replies. auto.
Qed.

Lemma sendMessage_requests prompt prev w :
  exists sent,
    requests (snd (sendMessage E prompt prev w)) = requests w ++ sent /\
    match sent with
    | [] => True
    | first :: rest =>
        securityPrompt E prompt = Resolved (reqText first) /\
        Forall (fun c => reqText c = continueMessage) rest
    end /\
    match prev with
    | Some _ => Forall carriesTimeout sent
    | None => Forall (fun rq => reqOptions rq = None) sent
    end.
Proof.
  assert (Hfirst : forall sp context, carriesTimeout (firstRequest sp context w)).
  { intros sp context. eexists _, _. split; [reflexivity|].
    unfold sendOptionsOf. split.
    - rewrite !lookup_insert_ne by done. apply lookup_insert_eq.
    - rewrite lookup_insert_ne by done. apply lookup_insert_eq. }
  assert (Hcont : forall context res, carriesTimeout (continueRequest context w res)).
  { intros context res. eexists _, _. split; [reflexivity|].
    unfold continueOptionsOf, sendOptionsOf. split.
    - rewrite !lookup_insert_ne by done. apply lookup_insert_eq.
    - rewrite !lookup_insert_ne by done. apply lookup_insert_eq. }
  destruct prev as [prev|].
  - destruct (sendMessage_chained E prompt prev w) as (sent & Hc & Hreq & _).
    exists sent. split; [assumption|].
    inversion Hc; subst;
      (split;
       [first [exact I | split; [eassumption|repeat constructor]]
       |repeat constructor; auto]).
  - rewrite sendMessage_first.
    destruct (securityPrompt E prompt) as [sp|e] eqn:Hsp.
    + exists [ {| reqText := sp; reqOptions := None |} ]. split; [reflexivity|].
      split; [split; [reflexivity|constructor]|]. repeat constructor.
    + exists []. simpl. rewrite app_nil_r. split; [reflexivity|].
      split; [exact I|constructor].
Qed.

(** C6, as the program has it. The request of a prompt carries
    [securityPrompt prompt]; a "continue" is sent as it is. Without a
    pattern the prompt is sent unchanged; with a pattern the prompt is cut
    in pieces, each ended by the first match behind the one before, and
    what is sent is these pieces with REMOVED in place of every match; a
    prompt without a match is sent unchanged. *)
Theorem securityPrompt_redacts prompt :
  (forall prev w,
      exists sent,
        requests (snd (sendMessage E prompt prev w)) = requests w ++ sent /\
        match sent with
        | [] => True
        | first :: rest =>
            securityPrompt E prompt = Resolved (reqText first) /\
            Forall (fun c => reqText c = continueMessage) rest
        end) /\
  (truthy (securityRegex (options E)) = false ->
   securityPrompt E prompt = Resolved prompt) /\
  (forall pattern regex,
      securityRegex (options E) = Some pattern -> pattern <> [] ->
      newRegExp E pattern = Some regex ->
      (exists pieces tail,
          Scanned regex prompt 0 0 pieces tail /\
          prompt = sourceOf pieces tail /\
          securityPrompt E prompt = Resolved (redactedOf REMOVED pieces tail)) /\
      ((forall j, j <= length prompt -> regex prompt j = None) ->
       securityPrompt E prompt = Resolved prompt)).
Proof.
  split; [|split].
  - intros prev w. destruct (sendMessage_requests prompt prev w)
      as (sent & Hreq & Htext & _). eauto.
  - intros Hno. unfold securityPrompt. rewrite Hno. reflexivity.
  - intros pattern regex Hpat Hne Hregex.
    assert (Hsec : securityPrompt E prompt
                   = Resolved (jsReplace regex prompt REMOVED)).
    { unfold securityPrompt. rewrite Hpat. simpl.
      destruct pattern; [congruence|]. simpl. rewrite Hregex. reflexivity. }
    rewrite Hsec. split.
    + destruct (jsReplace_Scanned regex prompt REMOVED)
        as (pieces & tail & Hsc & Hsrc & Hrep).
      exists pieces, tail. rewrite Hrep. auto.
    + intros Hnone. rewrite jsReplace_no_match by assumption. reflexivity.
Qed.

(** C7, as the program has it. Every request sendMessage sends for a
    prompt that has a parent context, the "continue" included, carries
    timeoutMs = 300000 and the signal of the controller made for the call;
    the request of a first message carries no options. *)
Theorem sendMessage_timeout prompt prev w :
  exists sent,
    requests (snd (sendMessage E prompt prev w)) = requests w ++ sent /\
    match prev with
    | Some _ =>
        Forall (fun rq =>
                  exists o,
                    reqOptions rq = Some o /\
                    o !! "timeoutMs" = Some (JNumber 300000) /\
                    o !! "abortSignal" = Some (JAbortSignal (controllers w)))
               sent
    | None => Forall (fun rq => reqOptions rq = None) sent
    end.
Proof.
  destruct prev as [prev|].
  - destruct (sendMessage_chained E prompt prev w) as (sent & Hc & Hreq & _).
    exists sent. split; [assumption|].
    assert (Hfirst : forall sp, exists o,
               reqOptions (firstRequest sp prev w) = Some o /\
               o !! "timeoutMs" = Some (JNumber 300000) /\
               o !! "abortSignal" = Some (JAbortSignal (controllers w))).
    { intros sp. eexists. split; [reflexivity|]. unfold sendOptionsOf. split.
      - rewrite !lookup_insert_ne by done. apply lookup_insert_eq.
      - rewrite lookup_insert_ne by done. apply lookup_insert_eq. }
    assert (Hcont : forall res, exists o,
               reqOptions (continueRequest prev w res) = Some o /\
               o !! "timeoutMs" = Some (JNumber 300000) /\
               o !! "abortSignal" = Some (JAbortSignal (controllers w))).
    { intros res. eexists. split; [reflexivity|].
      unfold continueOptionsOf, sendOptionsOf. split.
      - rewrite !lookup_insert_ne by done. apply lookup_insert_eq.
      - rewrite !lookup_insert_ne by done. apply lookup_insert_eq. }
    inversion Hc; subst; repeat constructor; auto.
  - destruct (sendMessage_requests prompt None w) as (sent & Hreq & _ & Hopts).
    eauto.
Qed.


Lemma objectPrototype_None name :
  objectPrototype name = None <-> oneOf name objectPrototypeNames = false.
Proof.
  unfold objectPrototype, oneOf, objectPrototypeNames. cbn [existsb orb].
  repeat (destruct (sameText name _);
          [cbn [orb]; split; discriminate|cbn [orb]]).
  split; reflexivity.
Qed.

Lemma promptArrayOf_Rejected fileResult e :
  generatePrompt E fileResult = Rejected e -> promptArrayOf E fileResult = Rejected e.
Proof. unfold promptArrayOf. intros ->. reflexivity. Qed.



End Claims.

(** ** The properties on runs of the program *)

(** An outcome is known from its first component. *)
Lemma outcome_eta {A} (r : Outcome A * World) (o : Outcome A) :
  fst r = o -> r = (o, snd r).
Proof. destruct r; simpl; congruence. Qed.

(** The reply to "continue" closes the code block the first reply opened. *)
Lemma sendMessage_merges_continuation_witness :
  exists merged w',
    sendMessage closedByContinue promptF (Some (parentContextOf taskReply)) freshWorld
      = (Resolved merged, w') /\
    get merged "text" = JString (txt "```ts it('f')" ++ txt " ```") /\
    get merged "id" = get restReply "id" /\
    get merged "conversationId" = get restReply "conversationId".
Proof.
  apply (sendMessage_merges_continuation closedByContinue promptF
           (parentContextOf taskReply) freshWorld promptF Test cutReply
           (txt "```ts it('f')") restReply (txt " ```"));
    try reflexivity; eexists; reflexivity.
Defined.

(** A file of one empty line has no code unit. *)
Lemma sendFileResult_no_code_prompts_witness :
  sendFileResult cutOnce blankFile freshWorld = (Resolved [], freshWorld) /\
  exists w', run cutOnce blankFile freshWorld = (Resolved [], w')
             /\ requests w' = requests freshWorld.
Proof.
  apply (sendFileResult_no_code_prompts cutOnce blankFile taskPrompt freshWorld).
  vm_compute. reflexivity.
Defined.

(** Three functions: the first is answered, the second runs into the time
    bound, and nothing is sent for the third. *)
Lemma run_failure_isolated_witness :
  exists w3,
    (sendFileResult timedOut threeFunctions (started timedOut freshWorld)
       = (Rejected (SendMessageError TimeoutError), w3) /\
     exists w4,
       run timedOut threeFunctions freshWorld = (Resolved [failureMessage], w4) /\
       requests w4 = requests w3) /\
    map reqText (requests w3) = [taskPrompt; promptF; promptG].
Proof.
  pose (w1 := snd (sendMessage timedOut taskPrompt None (started timedOut freshWorld))).
  pose (w2 := withParent wholeReply
                (snd (sendMessage timedOut promptF
                        (Some (parentContextOf taskReply)) w1))).
  exists (snd (sendMessage timedOut promptG (Some (parentContextOf wholeReply)) w2)).
  split; [|vm_compute; reflexivity].
  apply (run_failure_isolated timedOut threeFunctions taskPrompt [promptF] promptG
           [promptH] freshWorld taskReply w1 [wholeReply] w2).
  - vm_compute. reflexivity.
  - apply Boot_sent; [reflexivity|apply outcome_eta; reflexivity].
  - apply Pass_cons with (w1 := snd (sendMessage timedOut promptF
                                       (Some (parentContextOf taskReply)) w1));
      [apply outcome_eta; reflexivity|apply Pass_nil].
  - apply outcome_eta. reflexivity.
Defined.

(** The merged text still has one fence marker: two requests, not three. *)
Lemma sendMessage_continues_once_witness :
  exists first c,
    requests (snd (sendMessage stillCut promptF (Some (parentContextOf taskReply))
                     freshWorld))
    = requests freshWorld ++ [first; c]
    /\ reqText c = continueMessage.
Proof.
  destruct (sendMessage_continues_once stillCut promptF
              (Some (parentContextOf taskReply)) freshWorld)
    as (sent & Hreq & _ & Hodd).
  destruct (Hodd (parentContextOf taskReply) (mergeContinuation cutReply moreReply)
              (txt "```ts it('f')" ++ txt " expect(f())")
              eq_refl eq_refl eq_refl eq_refl)
    as (first & c & Hsent & Hc).
  exists first, c. rewrite <- Hsent. split; [exact Hreq|exact Hc].
Defined.



(** Two functions, two texts; the first is a merged one. *)
Lemma sendFileResult_one_text_per_prompt_witness :
  length (textsOf [mergeContinuation cutReply restReply; wholeReply])
  = length [promptF; promptG] /\
  Forall (fun text => exists s, text = JString s)
    (textsOf [mergeContinuation cutReply restReply; wholeReply]) /\
  ([promptF; promptG] = [] \/
   exists cursor w1 replies,
     Bootstrapped cutOnce taskPrompt freshWorld cursor w1 /\
     Pass cutOnce cursor [promptF; promptG] w1 replies
       (snd (sendFileResult cutOnce twoFunctions freshWorld)) /\
     textsOf [mergeContinuation cutReply restReply; wholeReply] = textsOf replies).
Proof.
  apply (sendFileResult_one_text_per_prompt cutOnce twoFunctions taskPrompt
           [promptF; promptG] freshWorld);
    [|apply outcome_eta]; vm_compute; reflexivity.
Defined.

(** Two functions, the reply to the first continued: four requests. *)
Lemma sendFileResult_chains_witness :
  exists boot cursor sent replies,
    requests (snd (sendFileResult cutOnce twoFunctions freshWorld))
    = requests freshWorld ++ boot ++ sent /\
    match parentMessage freshWorld with
    | Some message => boot = [] /\ cursor = message
    | None =>
        exists sp,
          securityPrompt cutOnce taskPrompt = Resolved sp /\
          boot = [ {| reqText := sp; reqOptions := None |} ] /\
          api cutOnce (requests freshWorld) {| reqText := sp; reqOptions := None |}
          = Resolved cursor
    end /\
    Chained cutOnce (requests freshWorld ++ boot) cursor [promptF; promptG] sent
      replies /\
    textsOf [mergeContinuation cutReply restReply; wholeReply] = textsOf replies /\
    length [promptF; promptG] <= length sent <= 2 * length [promptF; promptG] /\
    parentMessage (snd (sendFileResult cutOnce twoFunctions freshWorld))
    = Some (List.last replies cursor).
Proof.
  apply (sendFileResult_chains cutOnce twoFunctions taskPrompt promptF [promptG]
           freshWorld (textsOf [mergeContinuation cutReply restReply; wholeReply]));
    [|apply outcome_eta]; vm_compute; reflexivity.
Defined.

(** C3, as it is stated, fails: with two code-unit prompts whose replies both
    stop inside a code block, five requests are sent, four of them chained;
    neither number is N or N + 1. *)
Lemma sendFileResult_request_count_counterexample :
  ~ (forall E fileResult w systemPrompt codePrompts out w',
        promptArrayOf E fileResult = Resolved (systemPrompt :: codePrompts) ->
        sendFileResult E fileResult w = (Resolved out, w') ->
        length (requestsSince w w') = length codePrompts \/
        length (requestsSince w w') = length codePrompts + 1)
  /\
  ~ (forall E fileResult w systemPrompt codePrompts out w',
        promptArrayOf E fileResult = Resolved (systemPrompt :: codePrompts) ->
        sendFileResult E fileResult w = (Resolved out, w') ->
        length (List.filter isChained (requestsSince w w')) = length codePrompts \/
        length (List.filter isChained (requestsSince w w')) = length codePrompts + 1).
Proof.
  assert (Hg : promptArrayOf cutTwice twoFunctions
               = Resolved (taskPrompt :: [promptF; promptG]))
    by (vm_compute; reflexivity).
  assert (Hs : sendFileResult cutTwice twoFunctions freshWorld
               = (Resolved (textsOf [mergeContinuation cutReply restReply;
                                     mergeContinuation cutReply restReply]),
                  snd (sendFileResult cutTwice twoFunctions freshWorld)))
    by (apply outcome_eta; vm_compute; reflexivity).
  assert (Hall : length (requestsSince freshWorld
                           (snd (sendFileResult cutTwice twoFunctions freshWorld))) = 5)
    by (vm_compute; reflexivity).
  assert (Hchained : length (List.filter isChained
                               (requestsSince freshWorld
                                  (snd (sendFileResult cutTwice twoFunctions freshWorld))))
                     = 4)
    by (vm_compute; reflexivity).
  split; intros H; specialize (H _ _ _ _ _ _ _ Hg Hs);
    rewrite ?Hall, ?Hchained in H; simpl in H; lia.
Qed.

(** A prompt with a match of the pattern, and a run without a pattern. *)
Lemma securityPrompt_redacts_witness :
  (exists pieces tail,
      Scanned (literalCI (txt "secret")) (txt "const Secret = 1;") 0 0 pieces tail /\
      txt "const Secret = 1;" = sourceOf pieces tail /\
      securityPrompt secretIsSecret (txt "const Secret = 1;")
      = Resolved (redactedOf (REMOVED) pieces tail)) /\
  securityPrompt cutOnce promptF = Resolved promptF.
Proof.
  split.
  - apply (proj2 (proj2 (securityPrompt_redacts secretIsSecret (txt "const Secret = 1;")))
             (txt "secret") (literalCI (txt "secret")));
      [reflexivity|discriminate|reflexivity].
  - apply (proj1 (proj2 (securityPrompt_redacts cutOnce promptF))). reflexivity.
Defined.

(** C6, as it is stated, fails: the pattern matches "continue", the redaction
    of "continue" is REMOVED, and the request that continues the reply is
    sent with the text "continue". *)
Lemma continue_sent_unredacted :
  securityPrompt continueIsSecret continueMessage = Resolved REMOVED /\
  map reqText
    (requests (snd (sendMessage continueIsSecret promptF
                      (Some (parentContextOf taskReply)) freshWorld)))
  = [promptF; continueMessage] /\
  ~ Forall (fun rq => exists message,
                securityPrompt continueIsSecret message = Resolved (reqText rq)
                /\ (message = promptF \/ message = continueMessage))
      (requests (snd (sendMessage continueIsSecret promptF
                        (Some (parentContextOf taskReply)) freshWorld))).
Proof.
  assert (Htexts : map reqText
                     (requests (snd (sendMessage continueIsSecret promptF
                                       (Some (parentContextOf taskReply)) freshWorld)))
                   = [promptF; continueMessage])
    by (vm_compute; reflexivity).
  split; [vm_compute; reflexivity|]. split; [exact Htexts|].
  destruct (requests (snd (sendMessage continueIsSecret promptF
                             (Some (parentContextOf taskReply)) freshWorld)))
    as [|first [|c rest]]; try discriminate Htexts.
  injection Htexts as _ Hc _.
  intros H. apply Forall_cons_iff in H as [_ H].
  apply Forall_cons_iff in H as [(message & Hm & [-> | ->]) _];
    rewrite Hc in Hm; vm_compute in Hm; discriminate Hm.
Qed.

(** C7, as it is stated, fails: the request of the task prompt is sent
    without options, hence without a time bound and without a signal. *)
Lemma first_message_without_timeout :
  ~ Forall carriesTimeout
      (requests (snd (sendFileResult cutOnce twoFunctions freshWorld))).
Proof.
  assert (Hfirst : option_map reqOptions
                     (head (requests (snd (sendFileResult cutOnce twoFunctions
                                             freshWorld))))
                   = Some None)
    by (vm_compute; reflexivity).
  destruct (requests (snd (sendFileResult cutOnce twoFunctions freshWorld)))
    as [|first rest]; [discriminate Hfirst|].
  injection Hfirst as Hfirst.
  intros H. apply Forall_cons_iff in H as [(o & controller & Ho & _) _].
  congruence.
Qed.

(** * Part II, continued: the rest of the three files *)

(** ** sendPrompts *)

Section SendPromptsFacts.
Variable E : Env.

Lemma forPrompts_step prompt prompts messageArray w :
  forPrompts E (prompt :: prompts) messageArray w =
  match sendMessage E prompt None w with
  | (Resolved message, w1) =>
      forPrompts E prompts (messageArray ++ [get message "text"]) w1
  | (Rejected e, w1) => (Rejected e, w1)
  end.
Proof.
  simpl. unfold bind.
  destruct (sendMessage E prompt None w) as [[message|e] w1]; reflexivity.
Qed.

(** A first message: one request without options, or none. *)
Lemma sendMessage_first_world prompt w :
  (exists e, sendMessage E prompt None w = (Rejected e, w)
             /\ securityPrompt E prompt = Rejected e) \/
  (exists sp,
      securityPrompt E prompt = Resolved sp /\
      sendMessage E prompt None w =
        (api E (requests w) {| reqText := sp; reqOptions := None |},
         {| requests := requests w ++ [ {| reqText := sp; reqOptions := None |} ];
            parentMessage := parentMessage w;
            controllers := controllers w; output := output w |})).
Proof.
  rewrite sendMessage_first.
  destruct (securityPrompt E prompt) as [sp|e]; [right|left]; eauto.
Qed.

Lemma forPrompts_Resolved prompts messageArray w out w' :
  forPrompts E prompts messageArray w = (Resolved out, w') ->
  exists sent replies,
    requests w' = requests w ++ sent /\
    Forall2 (fun prompt rq =>
               securityPrompt E prompt = Resolved (reqText rq)
               /\ reqOptions rq = None) prompts sent /\
    (forall k rq, sent !! k = Some rq ->
                  exists reply, replies !! k = Some reply /\
                                api E (requests w ++ take k sent) rq = Resolved reply) /\
    length replies = length prompts /\
    out = messageArray ++ textsOf replies /\
    parentMessage w' = parentMessage w /\
    controllers w' = controllers w /\
    output w' = output w.
Proof.
  revert messageArray w out. induction prompts as [|prompt prompts IH];
    intros messageArray w out H.
  - simpl in H. injection H as <- <-. exists [], [].
    rewrite !app_nil_r. repeat split; try constructor. intros k rq Hk.
    rewrite lookup_nil in Hk. discriminate.
  - rewrite forPrompts_step in H.
    destruct (sendMessage_first_world prompt w) as [(e & Hs & _)|(sp & Hsp & Hs)];
      rewrite Hs in H; [discriminate|].
    destruct (api E (requests w) {| reqText := sp; reqOptions := None |})
      as [reply|e] eqn:Hapi; [|discriminate].
    apply IH in H as (sent & replies & Hreq & Hall & Hans & Hlen & -> & Hpm & Hc & Ho).
    exists ({| reqText := sp; reqOptions := None |} :: sent), (reply :: replies).
    simpl in Hreq, Hpm, Hc, Ho.
    split; [rewrite Hreq, <- app_assoc; reflexivity|].
    split; [constructor; auto|].
    split.
    { intros [|k] rq Hk; simpl in Hk.
      - injection Hk as <-. exists reply. simpl. rewrite app_nil_r. auto.
      - destruct (Hans k rq Hk) as (r & Hr & Ha). exists r. split; [assumption|].
        rewrite <- Ha. cbn. rewrite <- app_assoc. reflexivity. }
    split; [simpl; congruence|].
    split; [simpl; rewrite <- app_assoc; reflexivity|]. auto.
Qed.

(** X1. A call of sendPrompts that resolves sent one request per prompt, in
    the order of the prompts, each with the redacted prompt as its text and
    without options; the texts returned are those of the replies the
    endpoint gave to these requests, whatever their fence markers; the
    message retained and the spinner are as before. *)
Theorem sendPrompts_one_request_per_prompt prompts w out w' :
  sendPrompts E prompts w = (Resolved out, w') ->
  exists sent replies,
    requests w' = requests w ++ sent /\
    Forall2 (fun prompt rq =>
               securityPrompt E prompt = Resolved (reqText rq)
               /\ reqOptions rq = None) prompts sent /\
    (forall k rq, sent !! k = Some rq ->
                  exists reply, replies !! k = Some reply /\
                                api E (requests w ++ take k sent) rq = Resolved reply) /\
    out = textsOf replies /\
    length out = length prompts /\
    parentMessage w' = parentMessage w /\
    output w' = output w.
Proof.
  intros H. apply forPrompts_Resolved in H
    as (sent & replies & Hreq & Hall & Hans & Hlen & -> & Hpm & _ & Ho).
  exists sent, replies. simpl. repeat split; auto.
  unfold textsOf. rewrite length_map. assumption.
Qed.

Lemma forPrompts_sent prompts messageArray w :
  exists sent,
    requests (snd (forPrompts E prompts messageArray w)) = requests w ++ sent /\
    length sent <= length prompts /\
    Forall (fun rq => reqOptions rq = None) sent /\
    parentMessage (snd (forPrompts E prompts messageArray w)) = parentMessage w.
Proof.
  revert messageArray w. induction prompts as [|prompt prompts IH];
    intros messageArray w.
  - exists []. simpl. rewrite app_nil_r. auto.
  - rewrite forPrompts_step.
    destruct (sendMessage_first_world prompt w) as [(e & Hs & _)|(sp & Hsp & Hs)];
      rewrite Hs.
    + exists []. simpl. rewrite app_nil_r. repeat split; [lia|constructor].
    + destruct (api E (requests w) {| reqText := sp; reqOptions := None |})
        as [reply|e].
      * match goal with
        | |- context [forPrompts E prompts ?a ?w1] =>
            destruct (IH a w1) as (sent & Hreq & Hlen & Hall & Hpm)
        end.
        exists ({| reqText := sp; reqOptions := None |} :: sent).
        simpl in Hreq, Hpm. rewrite Hreq, Hpm, <- app_assoc.
        repeat split; [simpl; lia|constructor; auto].
      * exists [ {| reqText := sp; reqOptions := None |} ]. simpl.
        repeat split; [lia|repeat constructor].
Qed.

(** X2. Whatever its outcome, sendPrompts sends at most one request per
    prompt and none of them has options: no parent context, no time bound,
    no "continue"; it leaves the retained message as it was. *)
Theorem sendPrompts_never_chains prompts w :
  exists sent,
    requests (snd (sendPrompts E prompts w)) = requests w ++ sent /\
    length sent <= length prompts /\
    Forall (fun rq => reqOptions rq = None) sent /\
    parentMessage (snd (sendPrompts E prompts w)) = parentMessage w.
Proof. apply forPrompts_sent. Qed.
End SendPromptsFacts.

(** ** The retained message from pass to pass *)

Section CursorFacts.
Variable E : Env.

Lemma sendMessage_parent prompt prev w :
  parentMessage (snd (sendMessage E prompt prev w)) = parentMessage w.
Proof.
  destruct prev as [prev|].
  - destruct (sendMessage_chained E prompt prev w) as (sent & _ & _ & Hpm).
    exact Hpm.
  - destruct (sendMessage_first_world E prompt w) as [(e & Hs & _)|(sp & _ & Hs)];
      rewrite Hs; reflexivity.
Qed.

Lemma last_textsOf reply replies cursor :
  get (List.last (reply :: replies) cursor) "text"
  = List.last (textsOf (reply :: replies)) JUndefined.
Proof.
  revert reply. induction replies as [|r rs IH]; intros reply; [reflexivity|].
  specialize (IH r). unfold textsOf in *. simpl map in *.
  rewrite !last_cons_default in IH. rewrite !last_cons_default. exact IH.
Qed.

Lemma SendChained_parent prompt message w sent o :
  SendChained E prompt (parentContextOf message) w sent o ->
  match sent with
  | first :: _ => parentOf first = identifiers message
  | [] => True
  end.
Proof. inversion 1; subst; simpl; auto using parentOf_firstRequest. Qed.

(** What the loop sends, whatever its outcome. *)
Lemma forCodePrompts_sent prompts message messageArray w :
  exists sent,
    requests (snd (forCodePrompts E prompts message messageArray w))
    = requests w ++ sent /\
    Forall carriesTimeout sent /\
    match sent, prompts with
    | first :: _, prompt :: _ =>
        securityPrompt E prompt = Resolved (reqText first) /\
        parentOf first = identifiers message
    | [], _ => True
    | _ :: _, [] => False
    end /\
    (is_Some (parentMessage w) ->
     is_Some (parentMessage (snd (forCodePrompts E prompts message messageArray w)))).
Proof.
  revert message messageArray w.
  induction prompts as [|prompt prompts IH]; intros message messageArray w.
  - exists []. simpl. rewrite app_nil_r. auto.
  - rewrite forCodePrompts_step.
    destruct (sendMessage_chained E prompt (parentContextOf message) w)
      as (sent1 & Hc & Hreq1 & Hpm1).
    destruct (sendMessage_requests E prompt (Some (parentContextOf message)) w)
      as (sent1' & Hreq1' & Hhead & Htimed).
    assert (sent1' = sent1) as ->
        by (apply (app_inv_head (requests w)); congruence).
    pose proof (SendChained_parent _ _ _ _ _ Hc) as Hparent.
    destruct (sendMessage E prompt (Some (parentContextOf message)) w)
      as [[reply|e] w1]; simpl in *.
    + match goal with
      | |- context [forCodePrompts E prompts reply ?a ?w2] =>
          destruct (IH reply a w2) as (sent2 & Hreq2 & Htimed2 & _ & Hsome)
      end.
      exists (sent1 ++ sent2). simpl in Hreq2.
      split; [rewrite Hreq2, Hreq1, app_assoc; reflexivity|].
      split; [apply Forall_app; auto|].
      split; [|intros _; apply Hsome; simpl; eauto].
      inversion Hc; subst; simpl in *; tauto.
    + exists sent1. split; [assumption|]. split; [assumption|].
      split; [|rewrite Hpm1; auto].
      destruct sent1; [exact I|]. tauto.
Qed.

(** X3. A pass that succeeded on at least one code-unit prompt leaves its
    last reply as the retained message, and the next pass of the same
    instance, whatever its outcome, does not send its task prompt: every
    request it sends carries a parent context, and the first is the request
    of its first code-unit prompt, chained on that last reply. *)
Theorem sendFileResult_chains_on_previous_pass
    file1 task1 prompt1 prompts1 file2 task2 prompt2 prompts2 w out1 w1 :
  promptArrayOf E file1 = Resolved (task1 :: prompt1 :: prompts1) ->
  sendFileResult E file1 w = (Resolved out1, w1) ->
  promptArrayOf E file2 = Resolved (task2 :: prompt2 :: prompts2) ->
  exists last sent,
    parentMessage w1 = Some last /\
    get last "text" = List.last out1 JUndefined /\
    requests (snd (sendFileResult E file2 w1)) = requests w1 ++ sent /\
    Forall carriesTimeout sent /\
    match sent with
    | first :: _ =>
        securityPrompt E prompt2 = Resolved (reqText first) /\
        parentOf first = identifiers last
    | [] => True
    end.
Proof.
  intros Hg1 Hs1 Hg2.
  apply (sendFileResult_Resolved E _ _ _ _ _ _ _ Hg1) in Hs1
    as (cursor & w0 & replies & _ & HP & ->).
  pose proof (Pass_length E _ _ _ _ _ HP) as Hlen.
  apply Pass_Chained in HP as (_ & _ & _ & Hpm).
  destruct replies as [|reply replies]; [discriminate Hlen|].
  exists (List.last (reply :: replies) cursor).
  destruct (forCodePrompts_sent (prompt2 :: prompts2)
              (List.last (reply :: replies) cursor) [] w1)
    as (sent & Hreq & Htimed & Hhead & _).
  exists sent. split; [assumption|]. split; [apply last_textsOf|].
  unfold sendFileResult, bind, await, getParentMessage. rewrite Hg2, Hpm.
  unfold ret. split; [assumption|]. split; [assumption|].
  destruct sent; [exact I|assumption].
Qed.

(** X4. After resetParentMessage the next pass starts over: the requests
    sent before stay, and the first request of the pass is the redacted
    task prompt, sent without options; if the redaction is refused the pass
    rejects and sends nothing. *)
Theorem resetParentMessage_restarts fileResult task prompt prompts w :
  promptArrayOf E fileResult = Resolved (task :: prompt :: prompts) ->
  requests (snd (resetParentMessage w)) = requests w /\
  match securityPrompt E task with
  | Resolved sp =>
      exists rest,
        requests (snd (sendFileResult E fileResult (snd (resetParentMessage w))))
        = requests w ++ {| reqText := sp; reqOptions := None |} :: rest
  | Rejected e =>
      sendFileResult E fileResult (snd (resetParentMessage w))
      = (Rejected e, snd (resetParentMessage w))
  end.
Proof.
  intros Hg. split; [reflexivity|].
  remember (snd (resetParentMessage w)) as w0 eqn:Hw0.
  assert (Hpm : parentMessage w0 = None) by (subst w0; reflexivity).
  assert (Hrq : requests w0 = requests w) by (subst w0; reflexivity).
  clear Hw0. unfold sendFileResult, bind, await, getParentMessage.
  rewrite Hg. cbn iota. rewrite Hpm.
  destruct (sendMessage_first_world E task w0)
    as [(e & Hs & Hsp)|(sp & Hsp & Hs)]; rewrite Hsp, Hs; [reflexivity|].
  destruct (api E _ _) as [message|e].
  - destruct (forCodePrompts_sent (prompt :: prompts) message []
                {| requests := requests w0 ++ [ {| reqText := sp; reqOptions := None |} ];
                   parentMessage := parentMessage w0;
                   controllers := controllers w0; output := output w0 |})
      as (sent & Hreq & _).
    exists sent. cbn beta iota. rewrite Hreq. cbn [requests].
    rewrite Hrq, <- app_assoc. reflexivity.
  - exists []. cbn. rewrite Hrq. reflexivity.
Qed.

Lemma Bootstrapped_parent task w cursor w1 :
  Bootstrapped E task w cursor w1 -> parentMessage w1 = parentMessage w.
Proof.
  intros [message Hpm|message w2 Hpm Hs]; [reflexivity|].
  pose proof (sendMessage_parent task None w) as H. rewrite Hs in H. exact H.
Qed.

(** X5. A pass never clears the retained message, and a pass that fails
    leaves it at the last reply it received for a code-unit prompt; the
    reply to the task prompt is not retained, so that a pass that fails on
    its first code-unit prompt leaves the retained message as it found it. *)
Theorem sendFileResult_failure_keeps_last_reply
    fileResult task before prompt after w cursor w1 replies w2 e w3 :
  promptArrayOf E fileResult = Resolved (task :: before ++ prompt :: after) ->
  Bootstrapped E task w cursor w1 ->
  Pass E cursor before w1 replies w2 ->
  sendMessage E prompt (Some (parentContextOf (List.last replies cursor))) w2
    = (Rejected e, w3) ->
  sendFileResult E fileResult w = (Rejected e, w3) /\
  parentMessage w3 =
    match replies with
    | [] => parentMessage w
    | _ :: _ => Some (List.last replies cursor)
    end.
Proof.
  intros Hg HB HP Hfail.
  split; [eapply sendFileResult_Rejected; eassumption|].
  pose proof (sendMessage_parent prompt
                (Some (parentContextOf (List.last replies cursor))) w2) as Hpm3.
  rewrite Hfail in Hpm3. simpl in Hpm3. rewrite Hpm3.
  apply Pass_Chained in HP as (_ & _ & _ & Hpm2). rewrite Hpm2.
  destruct replies; [apply (Bootstrapped_parent _ _ _ _ HB)|reflexivity].
Qed.

(** X6. Neither sendFileResult nor run ever clears a retained message. *)
Theorem retained_message_stays fileResult w :
  is_Some (parentMessage w) ->
  is_Some (parentMessage (snd (sendFileResult E fileResult w))) /\
  is_Some (parentMessage (snd (run E fileResult w))).
Proof.
  assert (Hpass : forall w0, is_Some (parentMessage w0) ->
                             is_Some (parentMessage (snd (sendFileResult E fileResult w0)))).
  { intros w0 [message Hpm]. unfold sendFileResult, bind, await, getParentMessage.
    destruct (promptArrayOf E fileResult) as [[|task [|prompt prompts]]|e];
      simpl; rewrite ?Hpm; eauto.
    unfold ret.
    destruct (forCodePrompts_sent (prompt :: prompts) message [] w0)
      as (sent & _ & _ & _ & Hsome).
    apply Hsome. rewrite Hpm. eauto. }
  intros Hsome. split; [apply Hpass; assumption|].
  destruct (huskyGPTType (options E)) as [t|] eqn:Ht.
  - destruct (sendFileResult E fileResult (started E w)) as [o w1] eqn:Hs.
    destruct (run_outcome E t fileResult w o w1 Ht Hs) as (w' & Hr & _ & Hpm).
    rewrite Hr. simpl. rewrite Hpm.
    replace w1 with (snd (sendFileResult E fileResult (started E w)))
      by (rewrite Hs; reflexivity).
    apply Hpass. destruct (started_requests E w) as [_ ->]. assumption.
  - rewrite run_unset by assumption. assumption.
Qed.
End CursorFacts.

(** ** What the spinner is told *)

Section SpinnerFacts.
Variable E : Env.

Lemma started_output t w :
  huskyGPTType (options E) = Some t ->
  output (started E w) = output w ++ startEvents t.
Proof.
  intros Ht. unfold started, oraStart, needPrintMessage, userOptions_huskyGPTType,
    bind, await. rewrite Ht. destruct t; simpl; rewrite ?app_nil_r; reflexivity.
Qed.

(** X7. run rejects only when the type of the run is not set, and then
    before anything is sent or shown. When the type is set run resolves: to
    the texts of sendFileResult, after telling the spinner succeed and
    stop, or to the failure message, after logging the error and telling
    the spinner fail and stop; it sends nothing of its own. *)
Theorem run_reports fileResult w :
  match huskyGPTType (options E) with
  | None => run E fileResult w = (Rejected HuskyGPTTypeNotSet, w)
  | Some t =>
      output (started E w) = output w ++ startEvents t /\
      exists w',
        run E fileResult w =
          (Resolved (match fst (sendFileResult E fileResult (started E w)) with
                     | Resolved res => res
                     | Rejected _ => [failureMessage]
                     end), w') /\
        requests w' = requests (snd (sendFileResult E fileResult (started E w))) /\
        output w' =
          output (snd (sendFileResult E fileResult (started E w))) ++
          match fst (sendFileResult E fileResult (started E w)) with
          | Resolved _ => [SpinnerSucceed; SpinnerStop]
          | Rejected e => [ConsoleError e; SpinnerFail; SpinnerStop]
          end
  end.
Proof.
  destruct (huskyGPTType (options E)) as [t|] eqn:Ht; [|apply run_unset; assumption].
  split; [apply started_output; assumption|].
  unfold run, bind at 1 2, await at 1, userOptions_huskyGPTType at 1. rewrite Ht.
  unfold started.
  destruct (oraStart E w) as [[[]|e] w0] eqn:Ho.
  2:{ exfalso. revert Ho.
      unfold oraStart, needPrintMessage, userOptions_huskyGPTType, bind, await.
      rewrite Ht. destruct t; discriminate. }
  cbn [snd]. unfold finally, catch, bind, await, userOptions_huskyGPTType.
  rewrite Ht.
  destruct (sendFileResult E fileResult w0) as [[res|e] w1]; simpl;
    eexists; (split; [reflexivity|]); simpl; rewrite <- ?app_assoc; auto.
Qed.

Lemma prefixCI_spec pattern s :
  prefixCI pattern s = true <->
  exists mid after,
    s = mid ++ after /\ map canonicalize mid = map canonicalize pattern.
Proof.
  revert s. induction pattern as [|p pattern IH]; intros s; simpl.
  - split; [intros _; exists [], s; auto|reflexivity].
  - destruct s as [|c s].
    + split; [discriminate|]. intros (mid & after & Hs & Hm).
      destruct mid; discriminate.
    + rewrite andb_true_iff, Ascii.eqb_eq, IH. split.
      * intros (Hc & mid & after & -> & Hm). exists (c :: mid), after.
        simpl. rewrite Hm, Hc. auto.
      * intros (mid & after & Hs & Hm). destruct mid as [|c' mid]; [discriminate|].
        simpl in Hs, Hm. injection Hs as -> ->. injection Hm as Hc Hm.
        split; [congruence|]. eauto.
Qed.

Lemma jsTest_literalCI pattern s :
  jsTest (literalCI pattern) s = true <-> containsCI pattern s.
Proof.
  unfold jsTest, containsCI. split.
  - destruct (regExpExec (literalCI pattern) s 0) as [[p l]|] eqn:He;
      [|discriminate].
    intros _. apply regExpExec_Some in He as (Hp & _ & len & Hm & _).
    unfold literalCI in Hm.
    destruct ((p <=? length s) && prefixCI pattern (drop p s)) eqn:Hb;
      [|discriminate].
    apply andb_true_iff in Hb as [_ Hb].
    apply prefixCI_spec in Hb as (mid & after & Hd & Hmid).
    exists (take p s), mid, after. rewrite <- Hd, take_drop. auto.
  - intros (before & mid & after & -> & Hmid).
    destruct (regExpExec (literalCI pattern) (before ++ mid ++ after) 0) eqn:He;
      [reflexivity|].
    exfalso. rewrite regExpExec_None in He.
    specialize (He (length before)). unfold literalCI in He.
    rewrite drop_app_length in He.
    replace (prefixCI pattern (mid ++ after)) with true in He
      by (symmetry; apply prefixCI_spec; eauto).
    replace (length before <=? length (before ++ mid ++ after)) with true in He
      by (symmetry; apply Nat.leb_le; rewrite length_app; lia).
    simpl in He. discriminate He. rewrite length_app. lia.
Qed.

(** X8. isReviewPassed rejects only when the type of the run is not set.
    For a type other than Review every message passes; for Review a message
    passes exactly when it contains "perfect!" in any case, anywhere. *)
Theorem isReviewPassed_perfect message :
  match huskyGPTType (options E) with
  | None => isReviewPassed E message = Rejected HuskyGPTTypeNotSet
  | Some t =>
      exists passed,
        isReviewPassed E message = Resolved passed /\
        (passed = true <-> t <> Review \/ containsCI (txt "perfect!") message)
  end.
Proof.
  unfold isReviewPassed, userOptions_huskyGPTType.
  destruct (huskyGPTType (options E)) as [t|]; [|reflexivity].
  destruct t; try (exists true; split; [reflexivity|];
                   split; [intros _; left; discriminate|reflexivity]).
  exists (jsTest perfectRegex message). split; [reflexivity|].
  unfold perfectRegex. rewrite jsTest_literalCI. split; [auto|].
  intros [H|H]; [congruence|assumption].
Qed.

(** One chained call, world and all. *)
Lemma sendMessage_chained_world prompt prev w t sp o w' :
  huskyGPTType (options E) = Some t ->
  securityPrompt E prompt = Resolved sp ->
  sendMessage E prompt (Some prev) w = (o, w') ->
  match o with
  | Resolved message =>
      exists text passed,
        get message "text" = JString text /\
        isReviewPassed E text = Resolved passed /\
        output w' = output w ++ startEvents t
                    ++ [if passed then SpinnerSucceed else SpinnerFail]
  | Rejected _ => output w' = output w ++ startEvents t
  end /\
  controllers w' = Datatypes.S (controllers w).
Proof.
  intros Ht Hsp. unfold sendMessage, bind, await. rewrite Hsp. simpl.
  unfold oraStart, needPrintMessage, userOptions_huskyGPTType, bind, await.
  rewrite Ht. simpl.
  set (w1 := snd ((if match t with OtherType _ => false | _ => true end
                   then emit SpinnerStart else ret tt) w)).
  assert (Hw1 : output w1 = output w ++ startEvents t /\ controllers w1 = controllers w).
  { subst w1. destruct t; simpl; rewrite ?app_nil_r; auto. }
  destruct Hw1 as [Ho1 Hc1].
  replace ((if match t with OtherType _ => false | _ => true end
            then emit SpinnerStart else ret tt) w) with (Resolved tt, w1)
    by (subst w1; destruct t; reflexivity).
  simpl.
  assert (Hverdict : forall text,
             exists passed, isReviewPassed E text = Resolved passed).
  { intros text. unfold isReviewPassed, userOptions_huskyGPTType. rewrite Ht.
    destruct t; eexists; reflexivity. }
  destruct (api E _ _) as [res|e]; simpl; [|intros [= <- <-]; simpl; auto].
  unfold textOf.
  destruct (get res "text") as [|text|n|c|src] eqn:Htext; simpl;
    try (intros [= <- <-]; simpl; auto).
  destruct (needsContinuation text); simpl.
  - destruct (api E _ _) as [next|e]; simpl; [|intros [= <- <-]; simpl; auto].
    unfold mergeContinuation at 1. rewrite get_insert_eq, Htext. simpl.
    destruct (Hverdict (text ++ toString (get next "text"))) as (passed & Hp).
    rewrite Hp. simpl. intros [= <- <-]. simpl. split; [|congruence].
    exists (text ++ toString (get next "text")), passed.
    unfold mergeContinuation. rewrite get_insert_eq, Htext. simpl.
    rewrite Ho1, <- app_assoc. auto.
  - rewrite Htext. simpl.
    destruct (Hverdict text) as (passed & Hp).
    rewrite Hp. simpl. intros [= <- <-]. simpl. split; [|congruence].
    exists text, passed. rewrite Ho1, <- app_assoc. auto.
Qed.

(** X9. A chained call of sendMessage that resolves tells the spinner one
    verdict, after the start: succeed when the text it returns passes the
    review, fail when it does not; the text judged is the one returned,
    merged if the reply was continued. A call that rejects tells no
    verdict. *)
Theorem sendMessage_verdict prompt prev w t sp :
  huskyGPTType (options E) = Some t ->
  securityPrompt E prompt = Resolved sp ->
  match fst (sendMessage E prompt (Some prev) w) with
  | Resolved message =>
      exists text passed,
        get message "text" = JString text /\
        isReviewPassed E text = Resolved passed /\
        output (snd (sendMessage E prompt (Some prev) w))
        = output w ++ startEvents t
          ++ [if passed then SpinnerSucceed else SpinnerFail]
  | Rejected _ =>
      output (snd (sendMessage E prompt (Some prev) w)) = output w ++ startEvents t
  end.
Proof.
  intros Ht Hsp.
  destruct (sendMessage E prompt (Some prev) w) as [o w'] eqn:Hs.
  apply (sendMessage_chained_world prompt prev w t sp o w' Ht Hsp Hs).
Qed.
End SpinnerFacts.

(** ** Abort signals *)

Section SignalFacts.
Variable E : Env.

Lemma SendChained_signal prompt prev w sent o :
  SendChained E prompt prev w sent o ->
  Forall (fun rq => signalOf rq = JAbortSignal (controllers w)) sent.
Proof.
  assert (Hfirst : forall sp,
             signalOf (firstRequest sp prev w) = JAbortSignal (controllers w)).
  { intros sp. unfold signalOf, firstRequest, sendOptionsOf. simpl.
    rewrite get_insert_ne by done. apply get_insert_eq. }
  assert (Hcont : forall res,
             signalOf (continueRequest prev w res) = JAbortSignal (controllers w)).
  { intros res. unfold signalOf, continueRequest, continueOptionsOf, sendOptionsOf.
    simpl. rewrite !get_insert_ne by done. apply get_insert_eq. }
  inversion 1; subst; repeat constructor; auto.
Qed.

(** X10. Every chained call of sendMessage makes a controller of its own:
    the request of the prompt and the "continue" that may follow carry the
    same signal, and the requests of the next chained call carry another
    one. *)
Theorem sendMessage_fresh_signal prompt1 prev1 w reply1 w1 prompt2 prev2 :
  sendMessage E prompt1 (Some prev1) w = (Resolved reply1, w1) ->
  exists sent1 sent2,
    requests w1 = requests w ++ sent1 /\
    requests (snd (sendMessage E prompt2 (Some prev2) w1)) = requests w1 ++ sent2 /\
    Forall (fun rq => signalOf rq = JAbortSignal (controllers w)) sent1 /\
    Forall (fun rq => signalOf rq = JAbortSignal (Datatypes.S (controllers w))) sent2.
Proof.
  intros Hs.
  destruct (sendMessage_chained_requests E _ _ _ _ _ Hs) as (sent1 & Hc1 & Hreq1 & _).
  destruct (sendMessage_chained E prompt2 prev2 w1) as (sent2 & Hc2 & Hreq2 & _).
  exists sent1, sent2. split; [assumption|]. split; [assumption|].
  split; [eapply SendChained_signal; eassumption|].
  apply SendChained_signal in Hc2.
  inversion Hc1; subst;
    match goal with
    | Ht : huskyGPTType _ = Some _, Hsp : securityPrompt _ _ = Resolved _ |- _ =>
        destruct (sendMessage_chained_world E _ _ _ _ _ _ _ Ht Hsp Hs) as [_ <-]
    end; assumption.
Qed.
End SignalFacts.

(** ** The prompt builder *)

Section PromptFacts.
Variable E : Env.

(** X11. With the type Commit the prompt builder always rejects: with
    the error 'File path is required' when no file result is given, with
    the error of the file read when the content is missing or empty and
    the path cannot be read, and in every other case with the error of the
    reference to [path], which prompt.ts uses without importing it; run
    then resolves to the failure message and sends nothing. *)
Theorem commit_never_prompts fileResult w :
  huskyGPTType (options E) = Some Commit ->
  generatePrompt E fileResult =
    Rejected
      match fileResult with
      | None => FilePathRequired
      | Some given =>
          if truthy (fileContent given) then ReferenceError "path"
          else match filePath given with
               | None => ReadFileError None
               | Some path =>
                   match readFileSync E path with
                   | Some _ => ReferenceError "path"
                   | None => ReadFileError (Some path)
                   end
               end
      end /\
  exists w',
    run E fileResult w = (Resolved [failureMessage], w') /\
    requests w' = requests w.
Proof.
  intros Ht.
  assert (Hg : exists e, generatePrompt E fileResult = Rejected e /\
                         e = match fileResult with
                             | None => FilePathRequired
                             | Some given =>
                                 if truthy (fileContent given)
                                 then ReferenceError "path"
                                 else match filePath given with
                                      | None => ReadFileError None
                                      | Some path =>
                                          match readFileSync E path with
                                          | Some _ => ReferenceError "path"
                                          | None => ReadFileError (Some path)
                                          end
                                      end
                             end).
  { unfold generatePrompt, userOptions_huskyGPTType. rewrite Ht.
    destruct fileResult as [given|]; simpl; [|eauto].
    unfold fileContentOf. destruct (truthy (fileContent given)); [eauto|].
    destruct (filePath given) as [path|]; [|eauto].
    destruct (readFileSync E path); eauto. }
  destruct Hg as (e & Hg & He). split; [rewrite Hg, He; reflexivity|].
  destruct (run_outcome E Commit fileResult w _ _ Ht
              (sendFileResult_Rejected_early E _ _ (started E w)
                 (promptArrayOf_Rejected E _ _ Hg)))
    as (w' & Hr & Hreq & _).
  exists w'. split; [assumption|]. rewrite Hreq. apply started_requests.
Qed.

(** X12. When the prompt builder resolves, a file result was given and the
    type is Test, Review or the name of a member the map inherits from
    Object.prototype. For Test and Review the value is an array: the
    template around the instructions of tests.txt or review.txt, and
    after it, one for one, the code units the picker made of the content,
    which is the content given when it is not empty and the file read
    otherwise. For an inherited name the value is no array: for toString
    and toLocaleString sendFileResult works on the fifteen characters of
    the text of a plain object, one prompt each; for any other name it
    throws a TypeError on a value that cannot be iterated. *)
Theorem generatePrompt_resolved fileResult promptArray :
  generatePrompt E fileResult = Resolved promptArray ->
  exists t given,
    huskyGPTType (options E) = Some t /\
    fileResult = Some given /\
    match t with
    | Test | Review =>
        exists promptFile content instructions units,
          promptFileOf t = Some promptFile /\
          (if truthy (fileContent given)
           then fileContent given = Some content
           else exists path, filePath given = Some path
                             /\ readFileSync E path = Some content) /\
          readPromptFile E promptFile = Resolved instructions /\
          pickFunctionOrClassCodeArray E content = Resolved units /\
          promptArray = PromptArray (basePromptOf E instructions :: units)
    | Commit => False
    | OtherType name =>
        oneOf name objectPrototypeNames = true /\
        (forall prompts, promptArray <> PromptArray prompts) /\
        promptArrayOf E fileResult =
          if oneOf name ["toString"; "toLocaleString"]%string
          then Resolved (map (fun c => [c]) (txt "[object Object]"))
          else Rejected TypeError
    end.
Proof.
  intros Hg.
  assert (Harray : promptArrayOf E fileResult = arrayFrom promptArray).
  { unfold promptArrayOf. rewrite Hg. reflexivity. }
  rewrite Harray. clear Harray. revert Hg.
  unfold generatePrompt, userOptions_huskyGPTType.
  destruct (huskyGPTType (options E)) as [t|]; [|discriminate].
  destruct fileResult as [given|]; [|discriminate].
  cbn [HuskyGPTPrompt_generatePrompt]. intros Hg.
  exists t, given. split; [reflexivity|]. split; [reflexivity|].
  assert (Hcontent : forall content,
             fileContentOf E given = Resolved content ->
             if truthy (fileContent given)
             then fileContent given = Some content
             else exists path, filePath given = Some path
                               /\ readFileSync E path = Some content).
  { intros content. unfold fileContentOf.
    destruct (fileContent given) as [[|c s]|]; simpl;
      try (intros [= <-]; reflexivity);
      destruct (filePath given) as [path|]; try discriminate;
      destruct (readFileSync E path) eqn:Hr; try discriminate;
      intros [= <-]; eauto. }
  assert (Hwith : forall promptFile,
             promptsWith E promptFile given = Resolved promptArray ->
             exists content instructions units,
               fileContentOf E given = Resolved content /\
               readPromptFile E promptFile = Resolved instructions /\
               pickFunctionOrClassCodeArray E content = Resolved units /\
               promptArray = PromptArray (basePromptOf E instructions :: units)).
  { intros promptFile. unfold promptsWith.
    destruct (fileContentOf E given) as [content|]; [|discriminate].
    destruct (readPromptFile E promptFile) as [instructions|]; [|discriminate].
    destruct (pickFunctionOrClassCodeArray E content) as [units|] eqn:Hpick;
      [|discriminate].
    intros [= <-]. eauto 8. }
  destruct t as [| | |name]; cbn [huskyGPTTypeMap] in Hg.
  - apply Hwith in Hg as (content & instructions & units & Hc & Hi & Hp & ->).
    exists "review.txt"%string, content, instructions, units.
    repeat (split; [reflexivity || (apply Hcontent; assumption) || assumption|]).
    reflexivity.
  - apply Hwith in Hg as (content & instructions & units & Hc & Hi & Hp & ->).
    exists "tests.txt"%string, content, instructions, units.
    repeat (split; [reflexivity || (apply Hcontent; assumption) || assumption|]).
    reflexivity.
  - destruct (fileContentOf E given); discriminate.
  - destruct (objectPrototype name) as [member|] eqn:Hmember; [|discriminate].
    split.
    { destruct (oneOf name objectPrototypeNames) eqn:Hname; [reflexivity|].
      apply objectPrototype_None in Hname. congruence. }
    revert Hmember. unfold objectPrototype.
    repeat match goal with
           | |- context [if oneOf name ?names then Some _ else _] =>
               destruct (oneOf name names)
           end;
      intros Hm; try discriminate Hm; injection Hm as <-;
      try discriminate Hg; injection Hg as <-;
      (split; [intros; discriminate|reflexivity]).
Qed.

(** X13. A content that is given and not empty is used as it is: the file
    system is not read, so that the prompt builder gives the same outcome
    over any other file system. *)
Theorem generatePrompt_ignores_files_for_given_content given fs :
  truthy (fileContent given) = true ->
  generatePrompt (withReadFileSync E fs) (Some given) = generatePrompt E (Some given).
Proof.
  intros Hc.
  assert (Hsame : fileContentOf (withReadFileSync E fs) given = fileContentOf E given).
  { unfold fileContentOf. rewrite Hc. reflexivity. }
  unfold generatePrompt, userOptions_huskyGPTType. simpl.
  destruct (huskyGPTType (options E)) as [t|]; [|reflexivity].
  destruct t; simpl; unfold promptsWith; rewrite ?Hsame; reflexivity.
Qed.
End PromptFacts.

(** ** Code blocks and fence markers *)

Lemma countFences_step c s :
  countFences (c :: s) =
  if startsWithFence (c :: s) then Datatypes.S (countFences (drop 2 s))
  else countFences s.
Proof.
  destruct s as [|c2 [|c3 rest]]; reflexivity.
Qed.

Lemma findFence_None s : findFence s = None -> countFences s = 0.
Proof.
  induction s as [|c s IH]; [reflexivity|].
  rewrite countFences_step. cbn [findFence].
  destruct (startsWithFence (c :: s)); [discriminate|].
  destruct (findFence s); [discriminate|]. auto.
Qed.

Lemma findFence_None_drop s k : findFence s = None -> findFence (drop k s) = None.
Proof.
  revert s. induction k as [|k IH]; intros s H; [rewrite drop_0; assumption|].
  destruct s as [|c s]; [reflexivity|]. simpl drop. apply IH.
  cbn [findFence] in H. destruct (startsWithFence (c :: s)); [discriminate|].
  destruct (findFence s); [discriminate|reflexivity].
Qed.

Lemma startsWithFence_length s : startsWithFence s = true -> 3 <= length s.
Proof. destruct s as [|c1 [|c2 [|c3 rest]]]; simpl; try discriminate. lia. Qed.

Lemma findFence_Some s q :
  findFence s = Some q ->
  q + 3 <= length s /\
  startsWithFence (drop q s) = true /\
  countFences s = Datatypes.S (countFences (drop (q + 3) s)).
Proof.
  revert q. induction s as [|c s IH]; intros q; [discriminate|].
  rewrite countFences_step. cbn [findFence].
  destruct (startsWithFence (c :: s)) eqn:Hf.
  - intros [= <-]. split; [apply startsWithFence_length; assumption|].
    split; [assumption|reflexivity].
  - destruct (findFence s) as [q'|]; [|discriminate].
    intros [= <-]. destruct (IH q' eq_refl) as (Hlen & Hstart & Hcount).
    simpl. split; [lia|]. split; assumption.
Qed.

Lemma codeBlocksRegex_count S n i :
  length S - i <= n -> i <= length S ->
  length (resultsFrom codeBlocksRegex S i) = countFences (drop i S) / 2.
Proof.
  revert i. induction n as [|n IH]; intros i Hn Hi.
  - assert (i = length S) as -> by lia.
    rewrite drop_all, resultsFrom_unfold.
    replace (regExpExec codeBlocksRegex S (length S)) with (@None (nat * nat)).
    + reflexivity.
    + symmetry. apply regExpExec_None. intros j Hj.
      unfold codeBlocksRegex. rewrite drop_ge by lia. reflexivity.
  - destruct (drop i S) as [|c r] eqn:Hd.
    + assert (length (drop i S) = 0) as Hl by (rewrite Hd; reflexivity).
      rewrite length_drop in Hl. rewrite <- Hd. apply IH; lia.
    + assert (length (drop i S) = Datatypes.S (length r)) as Hl
        by (rewrite Hd; reflexivity).
      rewrite length_drop in Hl.
      rewrite countFences_step.
      destruct (startsWithFence (c :: r)) eqn:Hf.
      * assert (Hrest : drop (i + 3) S = drop 2 r).
        { replace (i + 3) with (i + Datatypes.S 2) by lia.
          apply (drop_tail_eq S i c r 2 Hd). }
        destruct (findFence (drop 2 r)) as [q|] eqn:Hq.
        -- destruct (findFence_Some _ _ Hq) as (Hlen & _ & Hcount).
           pose proof (startsWithFence_length _ Hf) as Hlen3.
           rewrite length_drop in Hlen. simpl in Hlen3.
           assert (Hm : codeBlocksRegex S i = Some (3 + q + 3)).
           { unfold codeBlocksRegex. rewrite Hd, Hf, Hrest, Hq. reflexivity. }
           rewrite resultsFrom_unfold.
           rewrite (regExpExec_found _ _ i i _ (conj (le_n i) Hi)
                      (fun j Hj => ltac:(lia)) Hm).
           rewrite Nat.min_l by lia.
           replace (3 + q + 3 =? 0) with false by (symmetry; apply Nat.eqb_neq; lia).
           assert (Hnext : drop (i + (3 + q + 3)) S = drop (q + 3) (drop 2 r)).
           { rewrite drop_drop.
             replace (i + (3 + q + 3)) with (i + Datatypes.S (2 + (q + 3))) by lia.
             apply (drop_tail_eq S i c r _ Hd). }
           cbn [length]. rewrite IH by lia. rewrite Hnext, Hcount.
           set (x := countFences (drop (q + 3) (drop 2 r))).
           replace (Datatypes.S (Datatypes.S x)) with (1 * 2 + x) by lia.
           rewrite Nat.div_add_l by lia. lia.
        -- rewrite (findFence_None _ Hq). rewrite resultsFrom_unfold.
           replace (regExpExec codeBlocksRegex S i) with (@None (nat * nat));
             [reflexivity|].
           symmetry. apply regExpExec_None. intros j Hj. unfold codeBlocksRegex.
           destruct (startsWithFence (drop j S)); [|reflexivity].
           replace (drop (j + 3) S) with (drop (j - i) (drop 2 r)).
           ++ rewrite findFence_None_drop by assumption. reflexivity.
           ++ rewrite <- Hrest, drop_drop. f_equal. lia.
      * assert (Hm : codeBlocksRegex S i = None).
        { unfold codeBlocksRegex. rewrite Hd, Hf. reflexivity. }
        rewrite resultsFrom_unfold, regExpExec_skip by (lia || assumption).
        rewrite <- resultsFrom_unfold, IH by lia.
        pose proof (drop_tail_eq S i c r 0 Hd) as Hd1. rewrite drop_0 in Hd1.
        rewrite Hd1. reflexivity.
Qed.

(** X14. codeBlocksRegex finds as many code blocks as there are pairs of
    fence markers, and the test made on a reply holds exactly when one
    marker is left beside the blocks: the text has an opened block that is
    not closed. *)
Theorem codeBlocks_pair_fences (text : list ascii) :
  length (codeBlocks text) = countFences text / 2 /\
  (needsContinuation text = true <->
   countFences text = 2 * length (codeBlocks text) + 1).
Proof.
  assert (Hblocks : length (codeBlocks text) = countFences text / 2).
  { unfold codeBlocks. rewrite jsMatch_length.
    rewrite (codeBlocksRegex_count text (length text) 0) by lia.
    rewrite drop_0. reflexivity. }
  split; [assumption|]. rewrite Hblocks, needsContinuation_odd.
  rewrite Nat.odd_spec. split.
  - intros [k Hk]. rewrite Hk at 1. f_equal. f_equal.
    rewrite Hk. replace (2 * k + 1) with (1 + k * 2) by lia.
    rewrite Nat.div_add by lia. reflexivity.
  - intros H. exists (countFences text / 2). exact H.
Qed.

(** ** constant.ts: the options of the client *)

Lemma sameText_spec a b : sameText a b = true <-> a = b.
Proof.
  revert b. induction a as [|x a IH]; intros [|y b]; simpl;
    try (split; [discriminate|discriminate]); [tauto|].
  rewrite andb_true_iff, Ascii.eqb_eq, IH. split; [intros [-> ->]|intros [= -> ->]]; auto.
Qed.

Lemma truthy_nonEmpty (o : option (list ascii)) :
  truthy o = nonEmpty (default [] o).
Proof. destruct o as [[|c s]|]; reflexivity. Qed.

Section ConstantFacts.
Variable execSync : list ascii -> option (list ascii).
Variable processEnvDEBUG : bool.

Lemma Settled_refl c : Settled execSync c c.
Proof. repeat split. Qed.

Lemma Settled_trans c1 c2 c3 :
  Settled execSync c1 c2 -> Settled execSync c2 c3 -> Settled execSync c1 c3.
Proof.
  intros (H1 & H2 & H3 & H4 & H5 & H6 & H7) (G1 & G2 & G3 & G4 & G5 & G6 & G7).
  repeat split; congruence.
Qed.

Lemma byProxy_Settled c c' :
  Settled execSync c c' -> byProxy execSync c' = byProxy execSync c.
Proof.
  intros (_ & Hurl & _ & _ & Htoken & _). unfold byProxy. rewrite Hurl, Htoken.
  reflexivity.
Qed.

Lemma modelOf_nonEmpty c : nonEmpty (modelOf execSync c) = true.
Proof.
  unfold modelOf.
  destruct (byProxy execSync c);
    [destruct (sameText _ apiModel); [reflexivity|]|];
    destruct (truthy (openAIModel (clientOptions c))) eqn:Ht; try reflexivity;
    rewrite <- truthy_nonEmpty; assumption.
Qed.

Lemma modelOf_byProxy c :
  byProxy execSync c = true -> modelOf execSync c <> apiModel.
Proof.
  unfold modelOf. intros ->.
  destruct (sameText (default [] (openAIModel (clientOptions c))) apiModel) eqn:Hs;
    [discriminate|].
  destruct (truthy (openAIModel (clientOptions c))); [|discriminate].
  intros H. rewrite <- sameText_spec in H. congruence.
Qed.

(** The getter of the token, step by step. *)
Lemma openAISessionToken_spec c :
  fst (userOptions_openAISessionToken execSync c) = tokenOf execSync c /\
  Settled execSync c (snd (userOptions_openAISessionToken execSync c)) /\
  npmQueries (snd (userOptions_openAISessionToken execSync c))
  = npmQueries c ++
    (if truthy (openAISessionToken (clientOptions c)) then []
     else [OPENAI_SESSION_TOKEN_NAME]) /\
  truthy (openAISessionToken
            (clientOptions (snd (userOptions_openAISessionToken execSync c))))
  = nonEmpty (tokenOf execSync c).
Proof.
  assert (Hview : tokenOf execSync c
                  = if truthy (openAISessionToken (clientOptions c))
                    then default [] (openAISessionToken (clientOptions c))
                    else match execSync OPENAI_SESSION_TOKEN_NAME with
                         | Some out => trim out
                         | None => []
                         end) by reflexivity.
  rewrite Hview. unfold userOptions_openAISessionToken.
  destruct (truthy (openAISessionToken (clientOptions c))) eqn:Ht; simpl.
  - rewrite app_nil_r, Ht. split; [reflexivity|]. split; [apply Settled_refl|].
    split; [reflexivity|]. symmetry. rewrite <- truthy_nonEmpty. assumption.
  - set (v := match execSync OPENAI_SESSION_TOKEN_NAME with
              | Some out => trim out
              | None => []
              end).
    split; [reflexivity|].
    assert (Htoken : tokenOf execSync
                       (setOpenAISessionToken v
                          {| clientOptions := clientOptions c;
                             npmQueries := npmQueries c ++ [OPENAI_SESSION_TOKEN_NAME] |})
                     = tokenOf execSync c).
    { unfold tokenOf. simpl. rewrite Ht. fold v. destruct v; reflexivity. }
    split; [|split; [reflexivity|destruct v; reflexivity]].
    repeat split; try assumption.
    unfold modelOf, byProxy. rewrite Htoken. reflexivity.
Qed.

(** X15. The getter of the session token returns the token of the options
    when there is one, and otherwise the trimmed output of npm, empty when
    npm fails; npm is asked exactly when the options hold no token; and
    once a call has returned a token that is not empty, the token is in the
    options, so that the next call returns it without asking npm. *)
Theorem openAISessionToken_cached c :
  fst (userOptions_openAISessionToken execSync c) = tokenOf execSync c /\
  npmQueries (snd (userOptions_openAISessionToken execSync c))
  = npmQueries c ++
    (if truthy (openAISessionToken (clientOptions c)) then []
     else [OPENAI_SESSION_TOKEN_NAME]) /\
  (nonEmpty (tokenOf execSync c) = true ->
   userOptions_openAISessionToken execSync
     (snd (userOptions_openAISessionToken execSync c))
   = (tokenOf execSync c, snd (userOptions_openAISessionToken execSync c))).
Proof.
  destruct (openAISessionToken_spec c) as (Hf & Hs & Hq & Ht).
  split; [assumption|]. split; [assumption|]. intros Hne.
  destruct (openAISessionToken_spec (snd (userOptions_openAISessionToken execSync c)))
    as (Hf2 & _ & _ & _).
  destruct Hs as (_ & _ & _ & _ & Htoken & _). rewrite Htoken in Hf2.
  rewrite Hne in Ht. revert Hf2. unfold userOptions_openAISessionToken at 1 3.
  rewrite Ht. simpl. intros ->. reflexivity.
Qed.
Lemma openAISendByProxy_spec c :
  fst (userOptions_openAISendByProxy execSync c) = byProxy execSync c /\
  Settled execSync c (snd (userOptions_openAISendByProxy execSync c)).
Proof.
  unfold userOptions_openAISendByProxy, byProxy.
  destruct (truthy (openAIProxyUrl (clientOptions c))); cbn [andb];
    [|split; [reflexivity|apply Settled_refl]].
  destruct (openAISessionToken_spec c) as (Hf & Hs & _ & _).
  destruct (userOptions_openAISessionToken execSync c) as [token c1].
  cbn [fst snd] in *. subst token.
  destruct (nonEmpty (tokenOf execSync c)); cbn [andb fst snd]; [|auto].
  destruct (openAISessionToken_spec c1) as (Hf2 & Hs2 & _ & _).
  destruct (userOptions_openAISessionToken execSync c1) as [token' c2].
  cbn [fst snd] in *. subst token'.
  assert (Htoken : tokenOf execSync c1 = tokenOf execSync c) by apply Hs.
  rewrite Htoken.
  split; [reflexivity|]. eapply Settled_trans; eassumption.
Qed.

Lemma setOpenAIModel_Settled c :
  byProxy execSync c = true ->
  sameText (default [] (openAIModel (clientOptions c))) apiModel = true ->
  Settled execSync c (setOpenAIModel proxyModel c).
Proof.
  intros Hp Hs. repeat split.
  unfold modelOf.
  replace (byProxy execSync (setOpenAIModel proxyModel c)) with (byProxy execSync c)
    by reflexivity.
  rewrite Hp, Hs. reflexivity.
Qed.

Lemma openAIModel_spec c :
  fst (userOptions_openAIModel execSync c) = modelOf execSync c /\
  Settled execSync c (snd (userOptions_openAIModel execSync c)).
Proof.
  unfold userOptions_openAIModel.
  destruct (openAISendByProxy_spec c) as (Hf & Hs).
  destruct (userOptions_openAISendByProxy execSync c) as [flag c1].
  cbn [fst snd] in *. subst flag. pose proof (byProxy_Settled _ _ Hs) as Hp.
  assert (Hm : modelOf execSync c1 = modelOf execSync c) by apply Hs.
  rewrite <- Hm, <- Hp. unfold modelOf.
  destruct (byProxy execSync c1) eqn:Hp1.
  - destruct (openAIModel (clientOptions c1)) as [name|] eqn:Hname; simpl.
    + destruct (sameText name apiModel) eqn:Hsame; simpl.
      * split; [reflexivity|]. eapply Settled_trans; [eassumption|].
        apply setOpenAIModel_Settled; [assumption|]. rewrite Hname. assumption.
      * split; [|assumption]. destruct name; reflexivity.
    + split; [reflexivity|assumption].
  - split; [reflexivity|assumption].
Qed.

Lemma openAISessionToken_keeps_model c :
  openAIModel (clientOptions (snd (userOptions_openAISessionToken execSync c)))
  = openAIModel (clientOptions c).
Proof.
  unfold userOptions_openAISessionToken.
  destruct (truthy (openAISessionToken (clientOptions c))); reflexivity.
Qed.

Lemma openAISendByProxy_keeps_model c :
  openAIModel (clientOptions (snd (userOptions_openAISendByProxy execSync c)))
  = openAIModel (clientOptions c).
Proof.
  unfold userOptions_openAISendByProxy.
  destruct (truthy (openAIProxyUrl (clientOptions c))); [|reflexivity].
  pose proof (openAISessionToken_keeps_model c) as H1.
  destruct (userOptions_openAISessionToken execSync c) as [token c1].
  cbn [snd] in H1. destruct (nonEmpty token); [|exact H1].
  pose proof (openAISessionToken_keeps_model c1) as H2.
  destruct (userOptions_openAISessionToken execSync c1) as [token' c2].
  cbn [snd] in *. congruence.
Qed.

(** X16. The getter of the model never returns an empty name. When the
    proxy is used it returns the model of the proxy for an option that is
    gpt-3.5-turbo, missing or empty, and the option otherwise, so that it
    never returns gpt-3.5-turbo; the replacement of gpt-3.5-turbo is stored
    in the options. When the proxy is not used it returns the option, and
    gpt-3.5-turbo when the option is missing or empty. A second call
    returns what the first did. *)
Theorem openAIModel_for_backend c :
  nonEmpty (fst (userOptions_openAIModel execSync c)) = true /\
  (fst (userOptions_openAISendByProxy execSync c) = true ->
   fst (userOptions_openAIModel execSync c)
   = (if sameText (default [] (openAIModel (clientOptions c))) apiModel
      then proxyModel
      else if truthy (openAIModel (clientOptions c))
           then default [] (openAIModel (clientOptions c)) else proxyModel) /\
   fst (userOptions_openAIModel execSync c) <> apiModel /\
   (openAIModel (clientOptions c) = Some apiModel ->
    openAIModel (clientOptions (snd (userOptions_openAIModel execSync c)))
    = Some proxyModel)) /\
  (fst (userOptions_openAISendByProxy execSync c) = false ->
   fst (userOptions_openAIModel execSync c)
   = if truthy (openAIModel (clientOptions c))
     then default [] (openAIModel (clientOptions c)) else apiModel) /\
  fst (userOptions_openAIModel execSync (snd (userOptions_openAIModel execSync c)))
  = fst (userOptions_openAIModel execSync c).
Proof.
  destruct (openAIModel_spec c) as (Hf & Hs).
  destruct (openAISendByProxy_spec c) as (Hp & _).
  rewrite Hf, Hp. split; [apply modelOf_nonEmpty|].
  split.
  { intros Hyes. split; [unfold modelOf; rewrite Hyes; reflexivity|].
    split; [apply modelOf_byProxy; assumption|].
    intros Hname. unfold userOptions_openAIModel.
    destruct (openAISendByProxy_spec c) as (Hflag & _).
    pose proof (openAISendByProxy_keeps_model c) as Hkept.
    destruct (userOptions_openAISendByProxy execSync c) as [flag c1].
    cbn [fst snd] in Hflag, Hkept. rewrite Hflag, Hyes.
    rewrite Hkept, Hname.
    assert (Hsame : sameText apiModel apiModel = true) by reflexivity.
    rewrite Hsame. reflexivity. }
  split.
  - intros Hno. unfold modelOf. rewrite Hno. reflexivity.
  - destruct (openAIModel_spec (snd (userOptions_openAIModel execSync c)))
      as (Hf2 & _).
    rewrite Hf2. apply Hs.
Qed.

Lemma openAIKey_spec c :
  fst (userOptions_openAIKey execSync c)
  = (if nonEmpty (keyOf execSync c) then inr (keyOf execSync c)
     else inl OpenAIKeyNotSet) /\
  Settled execSync c (snd (userOptions_openAIKey execSync c)) /\
  npmQueries (snd (userOptions_openAIKey execSync c))
  = npmQueries c ++
    (if truthy (openAIKey (clientOptions c)) then [] else [OPENAI_API_KEY_NAME]).
Proof.
  assert (Hview : keyOf execSync c
                  = if truthy (openAIKey (clientOptions c))
                    then default [] (openAIKey (clientOptions c))
                    else match execSync OPENAI_API_KEY_NAME with
                         | Some out => trim out
                         | None => []
                         end) by reflexivity.
  rewrite Hview. unfold userOptions_openAIKey.
  destruct (truthy (openAIKey (clientOptions c))) eqn:Ht; simpl.
  - rewrite Ht, app_nil_r. rewrite <- truthy_nonEmpty, Ht.
    split; [reflexivity|]. split; [apply Settled_refl|reflexivity].
  - set (v := match execSync OPENAI_API_KEY_NAME with
              | Some out => trim out
              | None => []
              end).
    split; [destruct v; reflexivity|].
    split; [|destruct v; reflexivity].
    assert (Hkey : keyOf execSync
                     (setOpenAIKey v
                        {| clientOptions := clientOptions c;
                           npmQueries := npmQueries c ++ [OPENAI_API_KEY_NAME] |})
                   = keyOf execSync c).
    { unfold keyOf. simpl. rewrite Ht. fold v. destruct v; reflexivity. }
    destruct v; repeat split; assumption.
Qed.

(** X17. The getter of the key rejects exactly when the options hold no
    key and npm gives none; otherwise it returns the key of the options or
    else the trimmed output of npm, which is not empty; npm is asked
    exactly when the options hold no key. *)
Theorem openAIKey_required c :
  (fst (userOptions_openAIKey execSync c) = inl OpenAIKeyNotSet <->
   truthy (openAIKey (clientOptions c)) = false /\
   match execSync OPENAI_API_KEY_NAME with
   | Some out => trim out = []
   | None => True
   end) /\
  (forall key, fst (userOptions_openAIKey execSync c) = inr key ->
               key = keyOf execSync c /\ key <> []) /\
  npmQueries (snd (userOptions_openAIKey execSync c))
  = npmQueries c ++
    (if truthy (openAIKey (clientOptions c)) then [] else [OPENAI_API_KEY_NAME]).
Proof.
  destruct (openAIKey_spec c) as (Hf & _ & Hq). rewrite Hf.
  split; [|split; [|assumption]].
  - unfold keyOf.
    destruct (truthy (openAIKey (clientOptions c))) eqn:Ht.
    + rewrite <- truthy_nonEmpty, Ht. split; [discriminate|intros [? _]; discriminate].
    + destruct (execSync OPENAI_API_KEY_NAME) as [out|]; simpl.
      * destruct (trim out); simpl; split; auto; try discriminate.
        intros [_ H]; discriminate.
      * split; auto.
  - intros key. destruct (keyOf execSync c) eqn:Hk; simpl; [discriminate|].
    intros [= <-]. split; [reflexivity|discriminate].
Qed.

Lemma openAIOptions_spec c :
  fst (userOptions_openAIOptions execSync c)
  = inr {| temperature := QArith_base.Qmake 0 1;
           top_p := QArith_base.Qmake 4 10;
           stop := [txt "###"];
           model := modelOf execSync c;
           max_tokens := openAIMaxTokens (clientOptions c) |} /\
  Settled execSync c (snd (userOptions_openAIOptions execSync c)).
Proof.
  unfold userOptions_openAIOptions.
  destruct (openAIModel_spec c) as (Hf & Hs).
  destruct (userOptions_openAIModel execSync c) as [name c1]. simpl in *. subst name.
  rewrite modelOf_nonEmpty.
  destruct (openAIModel_spec c1) as (Hf2 & Hs2).
  destruct (userOptions_openAIModel execSync c1) as [name' c2]. simpl in *. subst name'.
  pose proof (Settled_trans _ _ _ Hs Hs2) as Hs3.
  split; [|assumption]. f_equal. f_equal; apply Hs3 || apply Hs.
Qed.

(** X18. The getter of the completion parameters never rejects: the model
    it names is never empty, so that its check of the model cannot fail; it
    returns temperature 0, top_p 0.4, the stop sequence ###, the model of
    the getter and the maximum of tokens of the options. *)
Theorem openAIOptions_never_rejects c :
  exists params,
    fst (userOptions_openAIOptions execSync c) = inr params /\
    model params = fst (userOptions_openAIModel execSync c) /\
    model params <> [] /\
    max_tokens params = openAIMaxTokens (clientOptions c) /\
    stop params = [txt "###"].
Proof.
  destruct (openAIOptions_spec c) as (Hf & _). eexists. split; [exact Hf|].
  simpl. destruct (openAIModel_spec c) as (Hm & _). rewrite Hm.
  split; [reflexivity|]. split; [|auto].
  pose proof (modelOf_nonEmpty c) as Hne.
  destruct (modelOf execSync c); [discriminate|discriminate].
Qed.

(** X19. initApi builds the client of the proxy exactly when the options
    hold a proxy url and the session token, of the options or of npm, is
    neither empty nor the text undefined; that client gets the token, the
    url and a model that is not gpt-3.5-turbo. Otherwise it builds the
    client of the official API with the key, and rejects exactly when
    there is no key; it never rejects for the model. *)
Theorem initApi_backend c :
  fst (initApi execSync processEnvDEBUG c) =
  if byProxy execSync c
  then inr (ChatGPTUnofficialProxyAPI (modelOf execSync c) (tokenOf execSync c)
              (openAIProxyUrl (clientOptions c)))
  else if nonEmpty (keyOf execSync c)
       then inr (ChatGPTAPI (keyOf execSync c)
                   {| temperature := QArith_base.Qmake 0 1;
                      top_p := QArith_base.Qmake 4 10;
                      stop := [txt "###"];
                      model := modelOf execSync c;
                      max_tokens := openAIMaxTokens (clientOptions c) |}
                   (debug (clientOptions c)))
       else inl OpenAIKeyNotSet.
Proof.
  unfold initApi.
  set (c1 := if processEnvDEBUG
             then snd (userOptions_openAISessionToken execSync c) else c).
  assert (H1 : Settled execSync c c1).
  { subst c1. destruct processEnvDEBUG; [|apply Settled_refl].
    apply openAISessionToken_spec. }
  assert (H2 : Settled execSync c (snd (userOptions_openAIModel execSync c1))).
  { eapply Settled_trans; [exact H1|apply openAIModel_spec]. }
  set (c2 := snd (userOptions_openAIModel execSync c1)) in *.
  destruct (openAISendByProxy_spec c2) as (Hf3 & Hs3).
  destruct (userOptions_openAISendByProxy execSync c2) as [flag c3]. cbn [fst snd] in *.
  subst flag. rewrite (byProxy_Settled _ _ H2).
  pose proof (Settled_trans _ _ _ H2 Hs3) as H3.
  destruct (byProxy execSync c); cbn [negb].
  - destruct (openAIModel_spec c3) as (Hf4 & Hs4).
    destruct (userOptions_openAIModel execSync c3) as [name c4]. cbn [fst snd] in *.
    subst name. pose proof (Settled_trans _ _ _ H3 Hs4) as H4.
    destruct (openAISessionToken_spec c4) as (Hf5 & Hs5 & _).
    destruct (userOptions_openAISessionToken execSync c4) as [token c5]. cbn [fst snd] in *.
    subst token. pose proof (Settled_trans _ _ _ H4 Hs5) as H5.
    f_equal. f_equal; apply H3 || apply H4 || apply H5.
  - destruct (openAIKey_spec c3) as (Hf4 & Hs4 & _).
    destruct (userOptions_openAIKey execSync c3) as [key c4]. cbn [fst snd] in *.
    subst key. replace (keyOf execSync c3) with (keyOf execSync c) by (symmetry; apply H3).
    destruct (nonEmpty (keyOf execSync c)); [|reflexivity].
    pose proof (Settled_trans _ _ _ H3 Hs4) as H4.
    destruct (openAIOptions_spec c4) as (Hf5 & Hs5).
    destruct (userOptions_openAIOptions execSync c4) as [params c5]. cbn [fst snd] in *.
    subst params. pose proof (Settled_trans _ _ _ H4 Hs5) as H5.
    cbn [fst].
    destruct H4 as (_ & _ & Hmax4 & _ & _ & _ & Hmodel4). destruct H5 as (Hdebug5 & _).
    rewrite Hmodel4, Hmax4, Hdebug5. reflexivity.
Qed.
End ConstantFacts.

(** ** split and join *)

Lemma split_nonempty sep s : split sep s <> [].
Proof.
  destruct s as [|c s]; simpl; [discriminate|].
  destruct (Ascii.eqb c sep); [discriminate|].
  destruct (split sep s); discriminate.
Qed.

Lemma join_split sep s : join sep (split sep s) = s.
Proof.
  induction s as [|c s IH]; [reflexivity|]. simpl.
  pose proof (split_nonempty sep s) as Hne.
  destruct (Ascii.eqb c sep) eqn:Hc.
  - apply Ascii.eqb_eq in Hc. subst c.
    destruct (split sep s) as [|part parts]; [congruence|].
    simpl in *. rewrite IH. reflexivity.
  - destruct (split sep s) as [|part parts]; [congruence|].
    destruct parts; simpl in *; rewrite <- IH; reflexivity.
Qed.

Lemma split_no_separator sep s :
  Forall (fun part => Forall (fun c => c <> sep) part) (split sep s).
Proof.
  induction s as [|c s IH]; simpl; [repeat constructor|].
  destruct (Ascii.eqb c sep) eqn:Hc.
  - constructor; [constructor|assumption].
  - apply Ascii.eqb_neq in Hc.
    destruct (split sep s) as [|part parts]; [repeat constructor; assumption|].
    inversion IH; subst. constructor; [constructor; assumption|assumption].
Qed.

(** X20. The getter of the file extensions rejects exactly when the option
    is missing or empty; otherwise it returns at least one extension, none
    with a comma in it, and the extensions joined by commas are the option
    again. *)
Theorem readFilesExtensions_split c :
  match userOptions_readFilesExtensions c with
  | inl e =>
      e = ReadFileExtensionsNotSet /\
      truthy (readFileExtensions (clientOptions c)) = false
  | inr extensions =>
      extensions <> [] /\
      Forall (fun extension => Forall (fun ch => ch <> ","%char) extension) extensions /\
      readFileExtensions (clientOptions c) = Some (join ","%char extensions)
  end.
Proof.
  unfold userOptions_readFilesExtensions.
  destruct (readFileExtensions (clientOptions c)) as [[|ch s]|] eqn:Ho;
    cbn [truthy default]; try (split; reflexivity).
  split; [apply split_nonempty|].
  split; [apply split_no_separator|].
  rewrite join_split. reflexivity.
Qed.

(** ** init *)

Lemma convert_keys env key :
  key <> "debug"%string -> key <> "securityRegex"%string ->
  key <> "openAIKey"%string -> key <> "openAISessionToken"%string ->
  key <> "openAIProxyUrl"%string -> key <> "openAIModel"%string ->
  key <> "openAIMaxTokens"%string -> key <> "readType"%string ->
  key <> "readGitStatus"%string -> key <> "readFilesRootName"%string ->
  key <> "readFileExtensions"%string -> key <> "testFileType"%string ->
  key <> "testFileNameExtension"%string -> key <> "testFileDirName"%string ->
  key <> "reviewReportWebhook"%string ->
  convertProcessEnvToUserOptions env !! key = None.
Proof.
  intros. unfold convertProcessEnvToUserOptions.
  rewrite !lookup_insert_ne by congruence. apply lookup_empty.
Qed.

(** X21. What the caller of init passes wins over the environment and the
    defaults, even when it is undefined. The type of the run cannot come
    from the environment: unless the caller passes one, it is Review. And
    the default of the review webhook never stays: unless the caller
    passes one, the option is the variable of the environment, undefined
    when there is none. *)
Theorem init_caller_first env userOptions :
  (forall key value, userOptions !! key = Some value ->
                     init env userOptions !! key = Some value) /\
  (userOptions !! "huskyGPTType" = None ->
   init env userOptions !! "huskyGPTType" = Some (OEnum "HuskyGPTTypeEnum.Review")) /\
  (userOptions !! "reviewReportWebhook" = None ->
   init env userOptions !! "reviewReportWebhook"
   = Some (envValue env "REVIEW_REPORT_WEBHOOK")).
Proof.
  unfold init. split; [|split].
  - intros key value H. apply lookup_union_Some_l. assumption.
  - intros H. rewrite lookup_union_r by assumption.
    rewrite lookup_union_r by (apply convert_keys; discriminate).
    reflexivity.
  - intros H. rewrite lookup_union_r by assumption.
    apply lookup_union_Some_l. unfold convertProcessEnvToUserOptions.
    rewrite !lookup_insert_ne by discriminate. apply lookup_insert_eq.
Qed.

(** X22. For each option that has a variable of the environment and a
    default, and that the caller of init does not pass, the option is the
    variable when it is set and not empty, and the default when the
    variable is missing or empty. *)
Theorem init_environment_or_default env userOptions key variable :
  In (key, variable) environmentKnobs ->
  userOptions !! key = None ->
  init env userOptions !! key =
  match env !! variable with
  | Some (c :: s) => Some (OString (c :: s))
  | _ => userOptionsDefault !! key
  end.
Proof.
  intros Hin Hnone. unfold init. rewrite lookup_union_r by assumption.
  assert (Hconv : convertProcessEnvToUserOptions env !! key
                  = Some (envOr env variable (fallbackOf key))).
  { unfold convertProcessEnvToUserOptions.
    repeat (destruct Hin as [[= <- <-]|Hin];
            [rewrite !lookup_insert_ne by discriminate; apply lookup_insert_eq|]).
    destruct Hin. }
  rewrite (lookup_union_Some_l _ _ _ _ Hconv). unfold envOr.
  destruct (env !! variable) as [[|c s]|]; try reflexivity;
    simpl in Hin; unfold fallbackOf;
    repeat (destruct Hin as [[= <- <-]|Hin]; [reflexivity|]); destruct Hin.
Qed.

(** ** The properties on concrete runs *)

(** Two prompts, two requests; the reply that stops inside a code block is
    returned as it came. *)
Lemma sendPrompts_one_request_per_prompt_witness :
  exists sent replies,
    requests (snd (sendPrompts cutOnce [promptF; promptG] freshWorld))
    = requests freshWorld ++ sent /\
    Forall2 (fun prompt rq =>
               securityPrompt cutOnce prompt = Resolved (reqText rq)
               /\ reqOptions rq = None) [promptF; promptG] sent /\
    (forall k rq, sent !! k = Some rq ->
                  exists reply, replies !! k = Some reply /\
                                api cutOnce (requests freshWorld ++ take k sent) rq
                                = Resolved reply) /\
    textsOf [taskReply; cutReply] = textsOf replies /\
    length (textsOf [taskReply; cutReply]) = length [promptF; promptG] /\
    parentMessage (snd (sendPrompts cutOnce [promptF; promptG] freshWorld))
    = parentMessage freshWorld /\
    output (snd (sendPrompts cutOnce [promptF; promptG] freshWorld)) = output freshWorld.
Proof.
  apply (sendPrompts_one_request_per_prompt cutOnce [promptF; promptG] freshWorld
           (textsOf [taskReply; cutReply])).
  apply outcome_eta. vm_compute. reflexivity.
Defined.

(** A second pass over the same file, after a first that succeeded. *)
Lemma sendFileResult_chains_on_previous_pass_witness :
  exists last sent,
    parentMessage (snd (sendFileResult cutOnce twoFunctions freshWorld)) = Some last /\
    get last "text"
    = List.last (textsOf [mergeContinuation cutReply restReply; wholeReply]) JUndefined /\
    requests (snd (sendFileResult cutOnce twoFunctions
                     (snd (sendFileResult cutOnce twoFunctions freshWorld))))
    = requests (snd (sendFileResult cutOnce twoFunctions freshWorld)) ++ sent /\
    Forall carriesTimeout sent /\
    match sent with
    | first :: _ =>
        securityPrompt cutOnce promptF = Resolved (reqText first) /\
        parentOf first = identifiers last
    | [] => True
    end.
Proof.
  apply (sendFileResult_chains_on_previous_pass cutOnce twoFunctions taskPrompt promptF
           [promptG] twoFunctions taskPrompt promptF [promptG] freshWorld
           (textsOf [mergeContinuation cutReply restReply; wholeReply]));
    [|apply outcome_eta|]; vm_compute; reflexivity.
Defined.

(** After a pass and a reset, the task prompt is sent again. *)
Lemma resetParentMessage_restarts_witness :
  requests (snd (resetParentMessage (snd (sendFileResult cutOnce twoFunctions freshWorld))))
  = requests (snd (sendFileResult cutOnce twoFunctions freshWorld)) /\
  match securityPrompt cutOnce taskPrompt with
  | Resolved sp =>
      exists rest,
        requests (snd (sendFileResult cutOnce twoFunctions
                         (snd (resetParentMessage
                                 (snd (sendFileResult cutOnce twoFunctions freshWorld))))))
        = requests (snd (sendFileResult cutOnce twoFunctions freshWorld))
          ++ {| reqText := sp; reqOptions := None |} :: rest
  | Rejected e =>
      sendFileResult cutOnce twoFunctions
        (snd (resetParentMessage (snd (sendFileResult cutOnce twoFunctions freshWorld))))
      = (Rejected e,
         snd (resetParentMessage (snd (sendFileResult cutOnce twoFunctions freshWorld))))
  end.
Proof.
  apply (resetParentMessage_restarts cutOnce twoFunctions taskPrompt promptF [promptG]).
  vm_compute. reflexivity.
Defined.

(** The second function runs into the time bound: the reply to the first
    is retained. *)
Lemma sendFileResult_failure_keeps_last_reply_witness :
  exists w3,
    sendFileResult timedOut twoFunctions freshWorld
    = (Rejected (SendMessageError TimeoutError), w3) /\
    parentMessage w3 = Some wholeReply.
Proof.
  pose (w1 := snd (sendMessage timedOut taskPrompt None freshWorld)).
  pose (w2 := withParent wholeReply
                (snd (sendMessage timedOut promptF
                        (Some (parentContextOf taskReply)) w1))).
  exists (snd (sendMessage timedOut promptG (Some (parentContextOf wholeReply)) w2)).
  apply (sendFileResult_failure_keeps_last_reply timedOut twoFunctions taskPrompt
           [promptF] promptG [] freshWorld taskReply w1 [wholeReply] w2).
  - vm_compute. reflexivity.
  - apply Boot_sent; [reflexivity|apply outcome_eta; reflexivity].
  - apply Pass_cons with (w1 := snd (sendMessage timedOut promptF
                                       (Some (parentContextOf taskReply)) w1));
      [apply outcome_eta; reflexivity|apply Pass_nil].
  - apply outcome_eta. reflexivity.
Defined.

(** A pass that fails with a message retained. *)
Lemma retained_message_stays_witness :
  is_Some (parentMessage
             (snd (sendFileResult timedOut twoFunctions (withParent taskReply freshWorld))))
  /\ is_Some (parentMessage
                (snd (run timedOut twoFunctions (withParent taskReply freshWorld)))).
Proof.
  apply (retained_message_stays timedOut twoFunctions (withParent taskReply freshWorld)).
  exists taskReply. reflexivity.
Defined.

(** The praise comes with the continuation: the merged text passes. *)
Lemma sendMessage_verdict_witness :
  match fst (sendMessage reviewing promptF (Some (parentContextOf taskReply)) freshWorld)
  with
  | Resolved message =>
      exists text passed,
        get message "text" = JString text /\
        isReviewPassed reviewing text = Resolved passed /\
        output (snd (sendMessage reviewing promptF (Some (parentContextOf taskReply))
                       freshWorld))
        = output freshWorld ++ startEvents Review
          ++ [if passed then SpinnerSucceed else SpinnerFail]
  | Rejected _ =>
      output (snd (sendMessage reviewing promptF (Some (parentContextOf taskReply))
                     freshWorld))
      = output freshWorld ++ startEvents Review
  end.
Proof.
  apply (sendMessage_verdict reviewing promptF (parentContextOf taskReply) freshWorld
           Review promptF); reflexivity.
Defined.

(** Two chained calls, the first with a continuation: signals 0, 0 and 1. *)
Lemma sendMessage_fresh_signal_witness :
  exists sent1 sent2,
    requests (snd (sendMessage closedByContinue promptF
                     (Some (parentContextOf taskReply)) freshWorld))
    = requests freshWorld ++ sent1 /\
    requests (snd (sendMessage closedByContinue promptG
                     (Some (parentContextOf restReply))
                     (snd (sendMessage closedByContinue promptF
                             (Some (parentContextOf taskReply)) freshWorld))))
    = requests (snd (sendMessage closedByContinue promptF
                       (Some (parentContextOf taskReply)) freshWorld)) ++ sent2 /\
    Forall (fun rq => signalOf rq = JAbortSignal (controllers freshWorld)) sent1 /\
    Forall (fun rq => signalOf rq
                      = JAbortSignal (Datatypes.S (controllers freshWorld))) sent2.
Proof.
  apply (sendMessage_fresh_signal closedByContinue promptF (parentContextOf taskReply)
           freshWorld (mergeContinuation cutReply restReply)).
  apply outcome_eta. vm_compute. reflexivity.
Defined.

(** A run of type Commit on a content that is given. *)
Lemma commit_never_prompts_witness :
  generatePrompt committing twoFunctions = Rejected (ReferenceError "path") /\
  exists w',
    run committing twoFunctions freshWorld = (Resolved [failureMessage], w') /\
    requests w' = requests freshWorld.
Proof.
  apply (commit_never_prompts committing twoFunctions freshWorld). reflexivity.
Defined.

(** The prompts of a file of two functions. *)
Lemma generatePrompt_resolved_witness :
  exists t given,
    huskyGPTType (options cutOnce) = Some t /\
    twoFunctions = Some given /\
    match t with
    | Test | Review =>
        exists promptFile content instructions units,
          promptFileOf t = Some promptFile /\
          (if truthy (fileContent given)
           then fileContent given = Some content
           else exists path, filePath given = Some path
                             /\ readFileSync cutOnce path = Some content) /\
          readPromptFile cutOnce promptFile = Resolved instructions /\
          pickFunctionOrClassCodeArray cutOnce content = Resolved units /\
          PromptArray [taskPrompt; promptF; promptG]
          = PromptArray (basePromptOf cutOnce instructions :: units)
    | Commit => False
    | OtherType name =>
        oneOf name objectPrototypeNames = true /\
        (forall prompts, PromptArray [taskPrompt; promptF; promptG]
                         <> PromptArray prompts) /\
        promptArrayOf cutOnce twoFunctions =
          if oneOf name ["toString"; "toLocaleString"]%string
          then Resolved (map (fun c => [c]) (txt "[object Object]"))
          else Rejected TypeError
    end.
Proof.
  apply (generatePrompt_resolved cutOnce twoFunctions
           (PromptArray [taskPrompt; promptF; promptG])).
  vm_compute. reflexivity.
Defined.

(** A content given with a path: the file at the path is not read. *)
Lemma generatePrompt_ignores_files_for_given_content_witness :
  generatePrompt (withReadFileSync cutOnce otherFiles)
    (Some {| filePath := Some (txt "src/f.ts"); fileContent := Some promptF |})
  = generatePrompt cutOnce
      (Some {| filePath := Some (txt "src/f.ts"); fileContent := Some promptF |}).
Proof.
  apply (generatePrompt_ignores_files_for_given_content cutOnce
           {| filePath := Some (txt "src/f.ts"); fileContent := Some promptF |}
           otherFiles).
  reflexivity.
Defined.

(** The token of npm is asked for once. *)
Lemma openAISessionToken_cached_witness :
  nonEmpty (tokenOf npmWithToken proxyConfig) = true /\
  userOptions_openAISessionToken npmWithToken
    (snd (userOptions_openAISessionToken npmWithToken proxyConfig))
  = (tokenOf npmWithToken proxyConfig,
     snd (userOptions_openAISessionToken npmWithToken proxyConfig)).
Proof.
  split; [reflexivity|].
  destruct (openAISessionToken_cached npmWithToken proxyConfig) as (_ & _ & Hcached).
  apply Hcached. reflexivity.
Defined.

(** With the proxy the model of the official API is replaced by the model
    of the proxy, which is stored; without it the default is the model of
    the official API. *)
Lemma openAIModel_for_backend_witness :
  (fst (userOptions_openAIModel npmWithToken proxyConfig)
   = (if sameText (default [] (openAIModel (clientOptions proxyConfig))) apiModel
      then proxyModel
      else if truthy (openAIModel (clientOptions proxyConfig))
           then default [] (openAIModel (clientOptions proxyConfig))
           else proxyModel) /\
   fst (userOptions_openAIModel npmWithToken proxyConfig) <> apiModel /\
   openAIModel (clientOptions (snd (userOptions_openAIModel npmWithToken proxyConfig)))
   = Some proxyModel) /\
  fst (userOptions_openAIModel npmFails keyConfig)
  = if truthy (openAIModel (clientOptions keyConfig))
    then default [] (openAIModel (clientOptions keyConfig)) else apiModel.
Proof.
  destruct (openAIModel_for_backend npmWithToken proxyConfig) as (_ & Hproxy & _ & _).
  destruct (openAIModel_for_backend npmFails keyConfig) as (_ & _ & Hdirect & _).
  split; [|apply Hdirect; reflexivity].
  destruct (Hproxy eq_refl) as (Hmodel & Hnot & Hstored).
  split; [exact Hmodel|]. split; [exact Hnot|]. apply Hstored. reflexivity.
Defined.

(** A key in the options is returned; without one and without npm the
    getter rejects. *)
Lemma openAIKey_required_witness :
  (txt "sk-1" = keyOf npmFails keyConfig /\ txt "sk-1" <> []) /\
  fst (userOptions_openAIKey npmFails proxyConfig) = inl OpenAIKeyNotSet.
Proof.
  destruct (openAIKey_required npmFails keyConfig) as (_ & Hkey & _).
  destruct (openAIKey_required npmFails proxyConfig) as (Hnone & _ & _).
  split; [apply Hkey; reflexivity|apply Hnone; split; [reflexivity|exact I]].
Defined.

(** The caller sets debug, the environment the model. *)
Lemma init_caller_first_witness :
  init modelInEnvironment debugByCaller !! "debug"%string = Some (OBoolean true) /\
  init modelInEnvironment debugByCaller !! "huskyGPTType"%string
  = Some (OEnum "HuskyGPTTypeEnum.Review") /\
  init modelInEnvironment debugByCaller !! "reviewReportWebhook"%string
  = Some (envValue modelInEnvironment "REVIEW_REPORT_WEBHOOK").
Proof.
  destruct (init_caller_first modelInEnvironment debugByCaller)
    as (Hcaller & Htype & Hhook).
  split; [apply Hcaller|split; [apply Htype|apply Hhook]]; vm_compute; reflexivity.
Defined.

(** The model of the environment, and the default root of the files. *)
Lemma init_environment_or_default_witness :
  init modelInEnvironment debugByCaller !! "openAIModel"%string
  = match modelInEnvironment !! "OPENAI_MODEL"%string with
    | Some (c :: s) => Some (OString (c :: s))
    | _ => userOptionsDefault !! "openAIModel"%string
    end.
Proof.
  apply (init_environment_or_default modelInEnvironment debugByCaller
           "openAIModel" "OPENAI_MODEL").
  - simpl. auto.
  - vm_compute. reflexivity.
Defined.
